(** * adcp-core: recipe materialization, verified against the Go sources

    A shallow embedding of the parts of [devplaninc/adcp-core] that turn a
    recipe into materialized files: the GitHub URL conversion
    ([adcp/utils/github.go]), the content resolver
    ([adcp/core/generators]), the prefetch processor
    ([adcp/core/prefetch]), the recipe orchestrator ([adcp/core/recipes]),
    the shared IDE plugin ([adcp/core/plugins/shared]) and the Claude
    settings strategy ([adcp/core/plugins/claude]).

    Go strings are byte strings ([string]); Go maps are [gmap]s; a Go
    [(value, error)] pair is a [result]; nil-able slices, maps and message
    pointers are [option]s.  Shell commands, HTTP, the file system and the
    text syntax of [encoding/json] are outside the repository and are taken
    as parameters of the sections that use them; [GoText] gives that text
    syntax for the runs at concrete inputs. *)

From Stdlib Require Import String Ascii List Bool Arith Lia.
From stdpp Require Import base option list gmap strings fin_maps sorting pretty.

Local Open Scope string_scope.
Local Open Scope list_scope.

(** ** Go's [(T, error)] results *)

(** An [error] is represented by its message, which is all that the
    wrapping done with [fmt.Errorf("...: %w", err)] keeps observable. *)
Inductive result (A : Type) : Type :=
| Ok (a : A)
| Err (msg : string).
Arguments Ok {A} a.
Arguments Err {A} msg.

Definition is_Ok {A} (r : result A) : bool :=
  match r with Ok _ => true | Err _ => false end.

(** ** The functions of Go's [strings] package that the sources call *)

Module GoStrings.

(** [strings.HasPrefix(s, prefix)]. *)
Fixpoint HasPrefix (s prefix : string) {struct prefix} : bool :=
  match prefix, s with
  | EmptyString, _ => true
  | String _ _, EmptyString => false
  | String p prefix', String c s' => Ascii.eqb c p && HasPrefix s' prefix'
  end.

(** [s[n:]] for [n <= len(s)]. *)
Fixpoint drop_bytes (n : nat) (s : string) : string :=
  match n, s with
  | O, _ => s
  | S _, EmptyString => EmptyString
  | S n', String _ s' => drop_bytes n' s'
  end.

(** [strings.TrimPrefix(s, prefix)]. *)
Definition TrimPrefix (s prefix : string) : string :=
  if HasPrefix s prefix then drop_bytes (String.length prefix) s else s.

(** [strings.Cut(s, sep)]: the text before and after the first instance
    of [sep]. *)
Fixpoint Cut (s sep : string) : option (string * string) :=
  if HasPrefix s sep then Some (EmptyString, drop_bytes (String.length sep) s)
  else match s with
       | EmptyString => None
       | String c s' =>
           match Cut s' sep with
           | Some (before, after) => Some (String c before, after)
           | None => None
           end
       end.

(** [strings.Contains(s, substr)], that is [strings.Index(s, substr) >= 0]. *)
Definition Contains (s substr : string) : bool :=
  match Cut s substr with Some _ => true | None => false end.

(** [strings.SplitN(s, sep, n)] for a non-empty [sep] and [n >= 0]: at most
    [n] substrings, the last one being the unsplit remainder; [n = 0]
    gives the nil slice. *)
Fixpoint SplitN (s sep : string) (n : nat) : list string :=
  match n with
  | O => []
  | S O => [s]
  | S n' =>
      match Cut s sep with
      | Some (before, after) => before :: SplitN after sep n'
      | None => [s]
      end
  end.

(** [strings.Join(elems, sep)]. *)
Fixpoint Join (elems : list string) (sep : string) : string :=
  match elems with
  | [] => EmptyString
  | [e] => e
  | e :: rest => e +:+ sep +:+ Join rest sep
  end.

(** One white space character at the head of [s], as [unicode.IsSpace]
    sees it on UTF-8 text: the rest of [s] after it.  The ASCII ones are
    tab, newline, vertical tab, form feed, carriage return and space; the
    others are U+0085 and U+00A0 (two bytes) and U+1680, U+2000..U+200A,
    U+2028, U+2029, U+202F, U+205F and U+3000 (three bytes). *)
Definition space_prefix (s : string) : option string :=
  match s with
  | EmptyString => None
  | String c s1 =>
      let n := nat_of_ascii c in
      if ((9 <=? n) && (n <=? 13) || (n =? 32))%nat then Some s1
      else match s1 with
           | EmptyString => None
           | String c1 s2 =>
               let n1 := nat_of_ascii c1 in
               if ((n =? 194) && ((n1 =? 133) || (n1 =? 160)))%nat then Some s2
               else match s2 with
                    | EmptyString => None
                    | String c2 s3 =>
                        let n2 := nat_of_ascii c2 in
                        if ((n =? 225) && (n1 =? 154) && (n2 =? 128))%nat then Some s3
                        else if ((n =? 226) && (n1 =? 128)
                                 && ((128 <=? n2) && (n2 <=? 138)
                                     || (n2 =? 168) || (n2 =? 169) || (n2 =? 175)))%nat
                             then Some s3
                        else if ((n =? 226) && (n1 =? 129) && (n2 =? 159))%nat then Some s3
                        else if ((n =? 227) && (n1 =? 128) && (n2 =? 128))%nat then Some s3
                        else None
                    end
           end
  end.

(** The scan of [strings.Fields]: [skip] counts the bytes of a white space
    character still to pass over, [cur] is the field being read, reversed. *)
Fixpoint fields_scan (s : string) (skip : nat) (cur : list ascii) : list string :=
  let flush rest :=
    match cur with
    | [] => rest
    | _ => string_of_list_ascii (rev cur) :: rest
    end in
  match s with
  | EmptyString => flush []
  | String c s' =>
      match skip with
      | S k => fields_scan s' k cur
      | O =>
          match space_prefix s with
          | Some rest =>
              flush (fields_scan s' (String.length s' - String.length rest) [])
          | None => fields_scan s' 0 (c :: cur)
          end
      end
  end.

(** [strings.Fields(s)]: the maximal runs of non-space characters. *)
Definition Fields (s : string) : list string := fields_scan s 0 [].

End GoStrings.

Example Fields_devplan : GoStrings.Fields "devplan mcp" = ["devplan"; "mcp"].
Proof. reflexivity. Qed.

Example Fields_blank : GoStrings.Fields "  npx   -y  pkg " = ["npx"; "-y"; "pkg"].
Proof. reflexivity. Qed.

Example SplitN_five :
  GoStrings.SplitN "a/b/c/d/e/f" "/" 5 = ["a"; "b"; "c"; "d"; "e/f"].
Proof. reflexivity. Qed.

Example SplitN_short : GoStrings.SplitN "a/b" "/" 5 = ["a"; "b"].
Proof. reflexivity. Qed.

Example SplitN_empty : GoStrings.SplitN "" "/" 5 = [""].
Proof. reflexivity. Qed.

(** ** GitHub references: [adcp/utils/github.go] *)

Module utils.
Import GoStrings.

(** [adcp.GitVersion]: a message whose [type] oneof is a tag, a commit, or
    not set. *)
Inductive GitVersion : Type :=
| GitVersion_not_set
| GitVersion_Tag (tag : string)
| GitVersion_Commit (commit : string).

(** [adcp.GitReference]; a nil [version] pointer is [None]. *)
Record GitReference : Type := {
  ref_path : string;
  ref_version : option GitVersion;
}.

(** The path once the scheme and host prefixes are trimmed (the three
    [strings.TrimPrefix] calls). *)
Definition trimmed (githubPath : string) : string :=
  TrimPrefix (TrimPrefix (TrimPrefix githubPath "https://") "http://") "github.com/".

(** [parts := strings.SplitN(githubPath, "/", 5)] on the trimmed path. *)
Definition segments (githubPath : string) : list string :=
  SplitN (trimmed githubPath) "/" 5.

(** [fmt.Sprintf("https://raw.githubusercontent.com/%s/%s/%s/%s", ...)]. *)
Definition raw_url (owner repo ref filePath : string) : string :=
  "https://raw.githubusercontent.com/" +:+ owner +:+ "/" +:+ repo +:+ "/"
    +:+ ref +:+ "/" +:+ filePath.

(** The ref of the [owner/repo/file] format: the tag or the commit of the
    version, ["main"] otherwise. *)
Definition version_ref (version : option GitVersion) : string :=
  match version with
  | Some (GitVersion_Tag tag) => tag
  | Some (GitVersion_Commit commit) => commit
  | Some GitVersion_not_set | None => "main"
  end.

Definition invalid_format (githubPath : string) : string :=
  "invalid github path format: " +:+ githubPath.

(** [ConvertToRawURL]; [parts[i]] is [nth i parts ""], read only where the
    source has checked [len(parts)]. *)
Definition ConvertToRawURL (githubPath : string) (version : option GitVersion)
  : result string :=
  if Contains githubPath "raw.githubusercontent.com"
     || negb (Contains githubPath "github.com")
  then Ok githubPath
  else
    let githubPath := trimmed githubPath in
    let parts := SplitN githubPath "/" 5 in
    if (4 <=? length parts)%nat
       && (String.eqb (nth 2 parts "") "blob" || String.eqb (nth 2 parts "") "tree")
    then
      if (length parts <? 5)%nat then Err (invalid_format githubPath)
      else Ok (raw_url (nth 0 parts "") (nth 1 parts "") (nth 3 parts "") (nth 4 parts ""))
    else if (3 <=? length parts)%nat then
      Ok (raw_url (nth 0 parts "") (nth 1 parts "") (version_ref version)
            (Join (drop 2 parts) "/"))
    else Err (invalid_format githubPath).

End utils.

Example ConvertToRawURL_tag :
  utils.ConvertToRawURL "github.com/org/repo/docs/a.md" (Some (utils.GitVersion_Tag "v1"))
  = Ok "https://raw.githubusercontent.com/org/repo/v1/docs/a.md".
Proof. reflexivity. Qed.

Example ConvertToRawURL_four_segments :
  utils.ConvertToRawURL "https://github.com/org/repo/blob/main" None
  = Err "invalid github path format: org/repo/blob/main".
Proof. reflexivity. Qed.

Example ConvertToRawURL_two_segments :
  utils.ConvertToRawURL "github.com/org/repo" None
  = Err "invalid github path format: org/repo".
Proof. reflexivity. Qed.

Section ConvertToRawURL_facts.
Import GoStrings utils.

Lemma SplitN_length_le s sep n : (length (SplitN s sep n) <= n)%nat.
Proof.
  revert s; induction n as [|n IH]; intros s; simpl; [lia|].
  destruct n as [|n]; [simpl; lia|].
  destruct (Cut s sep) as [[before after]|]; simpl in *; [|lia].
  specialize (IH after). lia.
Qed.

Lemma SplitN_length_pos s sep n : (0 < n -> 0 < length (SplitN s sep n))%nat.
Proof.
  destruct n as [|[|n]]; simpl; [lia|lia|].
  destruct (Cut s sep) as [[before after]|]; simpl; lia.
Qed.

Lemma segments_length path : (1 <= length (segments path) <= 5)%nat.
Proof.
  unfold segments; split.
  - apply SplitN_length_pos; lia.
  - apply SplitN_length_le.
Qed.

(** What the function does once the two substring tests have sent it to
    the conversion branch, in terms of [segments]. *)
Lemma ConvertToRawURL_convert path version :
  Contains path "github.com" = true ->
  Contains path "raw.githubusercontent.com" = false ->
  ConvertToRawURL path version =
    let parts := segments path in
    if (4 <=? length parts)%nat
       && (String.eqb (nth 2 parts "") "blob" || String.eqb (nth 2 parts "") "tree")
    then
      if (length parts <? 5)%nat then Err (invalid_format (trimmed path))
      else Ok (raw_url (nth 0 parts "") (nth 1 parts "") (nth 3 parts "") (nth 4 parts ""))
    else if (3 <=? length parts)%nat then
      Ok (raw_url (nth 0 parts "") (nth 1 parts "") (version_ref version)
            (Join (drop 2 parts) "/"))
    else Err (invalid_format (trimmed path)).
Proof.
  intros Hgh Hraw. unfold ConvertToRawURL, segments. now rewrite Hgh, Hraw.
Qed.

Lemma third_segment_eqb (parts : list string) (kind : string) :
  parts !! 2 = Some kind -> nth 2 parts "" = kind.
Proof.
  destruct parts as [|a [|b [|c parts]]]; simpl; intros H; try discriminate.
  now inversion H.
Qed.

(** C5 (as amended).  For a path that goes to the conversion branch and
    whose third segment is [blob] or [tree]: with five segments the
    conversion succeeds and takes the ref and the file path from the fourth
    and fifth; with four it fails with "invalid github path format"; with
    three the [blob|tree] format is not recognised at all (the source tests
    [len(parts) >= 4] first), the path is read as [owner/repo/file] and the
    conversion succeeds.  There is no other number of segments. *)
Theorem ConvertToRawURL_blob_tree_segments (path : string) (version : option GitVersion) :
  Contains path "github.com" = true ->
  Contains path "raw.githubusercontent.com" = false ->
  segments path !! 2 = Some "blob" \/ segments path !! 2 = Some "tree" ->
  let parts := segments path in
  (3 <= length parts <= 5)%nat
  /\ (length parts = 5%nat ->
      ConvertToRawURL path version
      = Ok (raw_url (nth 0 parts "") (nth 1 parts "") (nth 3 parts "") (nth 4 parts "")))
  /\ (length parts = 4%nat ->
      ConvertToRawURL path version = Err (invalid_format (trimmed path)))
  /\ (length parts = 3%nat ->
      ConvertToRawURL path version
      = Ok (raw_url (nth 0 parts "") (nth 1 parts "") (version_ref version) (nth 2 parts ""))).
Proof.
  intros Hgh Hraw Hkind parts.
  pose proof (segments_length path) as Hlen. fold parts in Hlen.
  assert (Hthird : String.eqb (nth 2 parts "") "blob" || String.eqb (nth 2 parts "") "tree" = true).
  { destruct Hkind as [H|H]; apply third_segment_eqb in H; fold parts in H; rewrite H; reflexivity. }
  assert (Hge : (3 <= length parts)%nat).
  { destruct Hkind as [H|H]; apply lookup_lt_Some in H; fold parts in H; lia. }
  rewrite (ConvertToRawURL_convert path version Hgh Hraw). fold parts. cbv zeta.
  rewrite Hthird, andb_true_r.
  split; [lia|]. repeat split; intros Hn; rewrite Hn; simpl; try reflexivity.
  destruct parts as [|a [|b [|c [|d parts']]]]; simpl in Hn; try discriminate.
  reflexivity.
Qed.

(** The theorem at ["https://github.com/org/repo/tree/v2/docs/a.md"] (five
    segments), ["github.com/org/repo/blob/main"] (four) and
    ["github.com/org/repo/blob"] (three). *)
Lemma ConvertToRawURL_blob_tree_segments_witness :
  ConvertToRawURL "https://github.com/org/repo/tree/v2/docs/a.md" None
  = Ok "https://raw.githubusercontent.com/org/repo/v2/docs/a.md"
  /\ ConvertToRawURL "github.com/org/repo/blob/main" None
     = Err "invalid github path format: org/repo/blob/main"
  /\ ConvertToRawURL "github.com/org/repo/blob" None
     = Ok "https://raw.githubusercontent.com/org/repo/main/blob".
Proof.
  split; [|split].
  - apply (ConvertToRawURL_blob_tree_segments
             "https://github.com/org/repo/tree/v2/docs/a.md" None);
      [reflexivity | reflexivity | right; reflexivity | reflexivity].
  - apply (ConvertToRawURL_blob_tree_segments "github.com/org/repo/blob/main" None);
      [reflexivity | reflexivity | left; reflexivity | reflexivity].
  - apply (ConvertToRawURL_blob_tree_segments "github.com/org/repo/blob" None);
      [reflexivity | reflexivity | left; reflexivity | reflexivity].
Defined.

(** C5 (as stated) is false: ["github.com/o/r/blob"] contains the host, is
    no raw-content URL, has [blob] as its third segment and three segments
    in all, and its conversion succeeds, with
    ["https://raw.githubusercontent.com/o/r/main/blob"]. *)
Lemma ConvertToRawURL_blob_needs_not_five :
  ~ (forall (path : string) (version : option GitVersion),
        Contains path "github.com" = true ->
        Contains path "raw.githubusercontent.com" = false ->
        segments path !! 2 = Some "blob" \/ segments path !! 2 = Some "tree" ->
        (is_Ok (ConvertToRawURL path version) = true <-> length (segments path) = 5%nat)).
Proof.
  intros H.
  specialize (H "github.com/o/r/blob" None eq_refl eq_refl (or_introl eq_refl)).
  destruct H as [H _]. specialize (H eq_refl). discriminate H.
Qed.

(** C6.  The reference ["https://github.com/org/repo/blob/main/f.md"]
    without a version converts to
    ["https://raw.githubusercontent.com/org/repo/main/f.md"]; and a path
    that contains ["raw.githubusercontent.com"], or that does not contain
    ["github.com"], is returned as it is, without an error. *)
Theorem ConvertToRawURL_example_and_unchanged :
  ConvertToRawURL "https://github.com/org/repo/blob/main/f.md" None
  = Ok "https://raw.githubusercontent.com/org/repo/main/f.md"
  /\ forall (path : string) (version : option GitVersion),
      Contains path "raw.githubusercontent.com" = true
      \/ Contains path "github.com" = false ->
      ConvertToRawURL path version = Ok path.
Proof.
  split; [reflexivity|].
  intros path version [H|H]; unfold ConvertToRawURL; rewrite H; simpl; [reflexivity|].
  now rewrite orb_true_r.
Qed.

(** The second part of the theorem at a raw-content URL and at a URL of
    another host. *)
Lemma ConvertToRawURL_example_and_unchanged_witness :
  ConvertToRawURL "https://raw.githubusercontent.com/org/repo/main/f.md"
    (Some (GitVersion_Tag "v1"))
  = Ok "https://raw.githubusercontent.com/org/repo/main/f.md"
  /\ ConvertToRawURL "http://127.0.0.1:8080/notfound" None
     = Ok "http://127.0.0.1:8080/notfound".
Proof.
  split.
  - apply (proj2 ConvertToRawURL_example_and_unchanged). left. reflexivity.
  - apply (proj2 ConvertToRawURL_example_and_unchanged). right. reflexivity.
Defined.

End ConvertToRawURL_facts.

(** ** The Claude settings strategy: [adcp/core/plugins/claude/ide.go] *)

Module claude.

(** One iteration of either loop of [mergeUniqueStrings]: [seen] is the
    [map[string]bool] (a missing key reads as [false]), [result] the slice
    appended to. *)
Definition merge_step (acc : gmap string bool * list string) (s : string)
  : gmap string bool * list string :=
  let '(seen, result) := acc in
  if negb (default false (seen !! s))
  then (<[s := true]> seen, result ++ [s])
  else (seen, result).

(** [mergeUniqueStrings(existing, new)]. *)
Definition mergeUniqueStrings (existing new : list string) : list string :=
  let acc := foldl merge_step (∅, []) existing in
  let acc := foldl merge_step acc new in
  acc.2.

(** The first occurrences of a list, in their order: what "stable,
    first-seen-wins deduplication" means, written without the [seen] map. *)
Fixpoint first_occurrences (l : list string) : list string :=
  match l with
  | [] => []
  | x :: l' => x :: filter (λ y, y ≠ x) (first_occurrences l')
  end.

End claude.

Example mergeUniqueStrings_dups :
  claude.mergeUniqueStrings ["a"; "b"; "a"] ["b"; "c"; "c"; "a"; "d"] = ["a"; "b"; "c"; "d"].
Proof. vm_compute. reflexivity. Qed.

Section mergeUniqueStrings_facts.
Import claude.

Lemma elem_of_first_occurrences (l : list string) (s : string) :
  s ∈ first_occurrences l ↔ s ∈ l.
Proof.
  induction l as [|x l IH]; simpl; [done|].
  rewrite !elem_of_cons, list_elem_of_filter, IH.
  destruct (decide (s = x)); naive_solver.
Qed.

Lemma NoDup_first_occurrences (l : list string) : NoDup (first_occurrences l).
Proof.
  induction l as [|x l IH]; simpl; [constructor|].
  constructor; [|by apply NoDup_filter].
  rewrite list_elem_of_filter. naive_solver.
Qed.

Lemma first_occurrences_sublist (l : list string) : sublist (first_occurrences l) l.
Proof.
  induction l as [|x l IH]; simpl; [constructor|].
  constructor. etrans; [apply sublist_filter | exact IH].
Qed.

Lemma filter_Forall_id {A} (P : A → Prop) `{!∀ x, Decision (P x)} (l : list A) :
  Forall P l → filter P l = l.
Proof.
  induction 1 as [|x l Hx Hl IH]; [done|].
  rewrite filter_cons_True by done. by rewrite IH.
Qed.

Lemma first_occurrences_NoDup_id (l : list string) : NoDup l → first_occurrences l = l.
Proof.
  induction 1 as [|x l Hx Hl IH]; simpl; [done|].
  rewrite IH. f_equal. apply filter_Forall_id.
  apply Forall_forall. intros y Hy ->. done.
Qed.

(** The loop invariant: the keys of [seen] are the members of [result]. *)
Definition seen_tracks (seen : gmap string bool) (result : list string) : Prop :=
  ∀ s, default false (seen !! s) = true ↔ s ∈ result.

Lemma merge_loop (l : list string) (seen : gmap string bool) (result : list string) :
  seen_tracks seen result →
  ∃ seen', foldl merge_step (seen, result) l
            = (seen', result ++ filter (λ s, s ∉ result) (first_occurrences l))
           ∧ seen_tracks seen' (result ++ filter (λ s, s ∉ result) (first_occurrences l)).
Proof.
  revert seen result. induction l as [|x l IH]; intros seen result Htr.
  { exists seen. simpl. rewrite app_nil_r. done. }
  cbn [foldl merge_step first_occurrences].
  destruct (default false (seen !! x)) eqn:Hx; cbn [negb].
  - assert (x ∈ result) as Hin by (by apply Htr).
    assert (filter (λ s, s ∉ result) (x :: filter (λ y, y ≠ x) (first_occurrences l))
            = filter (λ s, s ∉ result) (first_occurrences l)) as ->.
    { rewrite filter_cons_False by (intros Hn; by apply Hn).
      apply list_filter_filter_l. intros s Hs ->. by apply Hs. }
    apply IH, Htr.
  - assert (x ∉ result) as Hnin.
    { intros Hin. apply Htr in Hin. congruence. }
    assert (seen_tracks (<[x:=true]> seen) (result ++ [x])) as Htr1.
    { intros s. rewrite elem_of_app, list_elem_of_singleton.
      destruct (decide (x = s)) as [->|Hne].
      - rewrite lookup_insert_eq. simpl. split; [by right | done].
      - rewrite lookup_insert_ne by done. rewrite (Htr s).
        split; [by left | intros [?|?]; [done | congruence]]. }
    assert (result ++ filter (λ s, s ∉ result) (x :: filter (λ y, y ≠ x) (first_occurrences l))
            = (result ++ [x]) ++ filter (λ s, s ∉ result ++ [x]) (first_occurrences l)) as ->.
    { rewrite filter_cons_True by done. rewrite <-app_assoc. simpl. do 2 f_equal.
      rewrite list_filter_filter. apply list_filter_iff.
      intros s. rewrite elem_of_app, list_elem_of_singleton. tauto. }
    apply IH, Htr1.
Qed.

Lemma mergeUniqueStrings_first_occurrences (existing new : list string) :
  mergeUniqueStrings existing new
  = first_occurrences existing ++ filter (λ s, s ∉ existing) (first_occurrences new).
Proof.
  unfold mergeUniqueStrings.
  destruct (merge_loop existing ∅ []) as (seen1 & -> & Htr1).
  { intros s. rewrite lookup_empty. simpl. split; [done|]. by intros ?%elem_of_nil. }
  destruct (merge_loop new seen1 _ Htr1) as (seen2 & -> & _). simpl.
  rewrite (filter_Forall_id (λ s, s ∉ []))
    by (apply Forall_forall; intros s _ ?%elem_of_nil; done).
  f_equal. apply list_filter_iff. intros s.
  by rewrite elem_of_first_occurrences.
Qed.

(** C1.  [mergeUniqueStrings existing new] holds every string of either
    list and nothing else, each exactly once; it starts with the first
    occurrences of [existing], which keep the order they have in
    [existing] (all of [existing], when that has no duplicate), and goes on
    with the first occurrences of the strings of [new] that [existing]
    lacks, in the order of [new].  The last part is the scenario of the
    specification: an existing allow list holding the permission for
    [git status], merged with a new one holding the permission for
    [go test], gives these two permissions in this order. *)
Theorem mergeUniqueStrings_stable_dedup (existing new : list string) :
  NoDup (mergeUniqueStrings existing new)
  ∧ (∀ s, s ∈ mergeUniqueStrings existing new ↔ s ∈ existing ∨ s ∈ new)
  ∧ mergeUniqueStrings existing new
    = first_occurrences existing ++ filter (λ s, s ∉ existing) (first_occurrences new)
  ∧ sublist (first_occurrences existing) existing
  ∧ sublist (filter (λ s, s ∉ existing) (first_occurrences new)) new
  ∧ (NoDup existing → first_occurrences existing = existing)
  ∧ mergeUniqueStrings ["Bash(git status:*)"] ["Bash(go test:*)"]
    = ["Bash(git status:*)"; "Bash(go test:*)"].
Proof.
  rewrite mergeUniqueStrings_first_occurrences.
  split; [|split; [|split; [|split; [|split; [|split]]]]].
  - apply NoDup_app. split; [apply NoDup_first_occurrences|]. split.
    + intros s Hs. rewrite list_elem_of_filter, elem_of_first_occurrences.
      rewrite elem_of_first_occurrences in Hs. naive_solver.
    + apply NoDup_filter, NoDup_first_occurrences.
  - intros s. rewrite elem_of_app, list_elem_of_filter, !elem_of_first_occurrences.
    destruct (decide (s ∈ existing)); naive_solver.
  - done.
  - apply first_occurrences_sublist.
  - etrans; [apply sublist_filter | apply first_occurrences_sublist].
  - apply first_occurrences_NoDup_id.
  - vm_compute. reflexivity.
Qed.

(** The theorem at an existing list with a duplicate: ["a"; "b"; "a"]
    merged with ["b"; "c"] is ["a"; "b"; "c"]. *)
Lemma mergeUniqueStrings_stable_dedup_witness :
  NoDup (mergeUniqueStrings ["a"; "b"; "a"] ["b"; "c"])
  ∧ (NoDup ["x"; "y"] → first_occurrences ["x"; "y"] = ["x"; "y"]).
Proof.
  split.
  - exact (proj1 (mergeUniqueStrings_stable_dedup ["a"; "b"; "a"] ["b"; "c"])).
  - destruct (mergeUniqueStrings_stable_dedup ["x"; "y"] []) as (_ & _ & _ & _ & _ & H & _).
    exact H.
Defined.

End mergeUniqueStrings_facts.

(** ** The protocol messages the sources read: package [adcp]

    The generated protobuf code is outside the repository; the messages
    are given here by what their accessors return.  A message pointer that
    may be nil is an [option], a oneof has a case for "not set", and a
    getter on a nil message returns the zero value. *)

Module adcp.
Import utils.

Record FullFileContent : Type := {
  file_path : string;
  file_content : string;
}.

(** [MaterializedResult_Entry], built from a [File] everywhere. *)
Record MaterializedResult_Entry : Type := { entry_file : FullFileContent }.

Record MaterializedResult : Type := {
  result_entries : list MaterializedResult_Entry;
}.

(** [MaterializedResult_Entry_builder{File: FullFileContent_builder{Path, Content}}]. *)
Definition file_entry (path content : string) : MaterializedResult_Entry :=
  {| entry_file := {| file_path := path; file_content := content |} |}.

Record FetchedData : Type := { data_id : string; data_data : string }.

Record PrefetchResult : Type := { prefetch_data : list FetchedData }.

Inductive PrefetchEntry : Type :=
| PrefetchEntry_not_set
| PrefetchEntry_Cmd (cmd : string).

Record Prefetch : Type := { prefetch_entries : list (option PrefetchEntry) }.

Inductive CombinedContextSource_Item : Type :=
| Item_not_set
| Item_Text (text : string)
| Item_Cmd (cmd : string)
| Item_Github (github : GitReference)
| Item_PrefetchId (id : string).

Record CombinedContextSource : Type := {
  combined_items : list (option CombinedContextSource_Item);
}.

Inductive ContextFrom : Type :=
| ContextFrom_not_set
| ContextFrom_Text (text : string)
| ContextFrom_Cmd (cmd : string)
| ContextFrom_Github (github : GitReference)
| ContextFrom_Combined (combined : CombinedContextSource)
| ContextFrom_PrefetchId (id : string).

Record ContextEntry : Type := {
  context_path : string;
  context_from : option ContextFrom;
}.

Record Context : Type := { context_entries : list (option ContextEntry) }.

Inductive CommandFrom : Type :=
| CommandFrom_not_set
| CommandFrom_Text (text : string)
| CommandFrom_Cmd (cmd : string)
| CommandFrom_Github (github : GitReference).

Record Command : Type := {
  command_name : string;
  command_from : option CommandFrom;
}.

Record Commands : Type := { commands_entries : list (option Command) }.

Inductive OperationPermission : Type :=
| Permission_not_set
| Permission_Bash (arg : string)
| Permission_Read (arg : string)
| Permission_Write (arg : string).

(** The [allow] and [deny] lists hold pointers; a nil one answers
    [HasType()] with false, as [Permission_not_set] does. *)
Record Permissions : Type := {
  permissions_allow : list OperationPermission;
  permissions_deny : list OperationPermission;
}.

Inductive McpServer : Type :=
| McpServer_not_set
| McpServer_Http (url : string)
| McpServer_Stdio (command : string).

(** [servers] is a [map[string]*McpServer]; a nil server is [None]. *)
Record Mcp : Type := { mcp_servers : gmap string (option McpServer) }.

Record Ide : Type := {
  ide_commands : option Commands;
  ide_permissions : option Permissions;
  ide_mcp : option Mcp;
}.

Record Recipe : Type := {
  recipe_context : option Context;
  recipe_ide : option Ide;
  recipe_prefetch : option Prefetch;
}.

(** Nil-safe getters. *)
Definition GetEntries (prefetch : option Prefetch) : list (option PrefetchEntry) :=
  match prefetch with Some p => prefetch_entries p | None => [] end.

Definition GetPath (entry : option ContextEntry) : string :=
  match entry with Some e => context_path e | None => "" end.

Definition GetName (c : option Command) : string :=
  match c with Some c => command_name c | None => "" end.

Definition GetServers (mcp : option Mcp) : gmap string (option McpServer) :=
  match mcp with Some m => mcp_servers m | None => ∅ end.

End adcp.

(** [core.GenerationContext]: the prefetched data, a map that is nil until
    the prefetch step has run. *)
Module core.

Record GenerationContext : Type := {
  Prefetched : option (gmap string adcp.FetchedData);
}.

(** [GetPrefetched], nil-safe; reading the nil map it may return finds
    nothing, as reading an empty one. *)
Definition GetPrefetched (g : option GenerationContext) : gmap string adcp.FetchedData :=
  match g with
  | None => ∅
  | Some g => default ∅ (Prefetched g)
  end.

End core.

(** ** Go's [encoding/json], on JSON values

    The repository reads and writes its settings files with
    [json.Unmarshal] and [json.MarshalIndent] on Go structs.  This module
    gives the part of that library that depends on the struct: which JSON
    value a struct is written as, and which struct a JSON value is read as.
    The text syntax (from bytes to a JSON value and back) is a parameter of
    the section that uses it. *)

Module GoJson.

(** A JSON value.  An object keeps its members in the order of the text,
    repeated names included; a number keeps its literal. *)
Inductive json : Type :=
| JNull
| JBool (b : bool)
| JNumber (literal : string)
| JString (s : string)
| JArray (elems : list json)
| JObject (members : list (string * json)).

(** *** Reading

    [Unmarshal] decodes into an existing value: [null] leaves a string, a
    bool or a struct as it is and sets a slice or a map to nil; a value of
    the wrong kind is an [UnmarshalTypeError], [None] here (the callers
    throw the struct away on any error). *)

Definition decode_string (j : json) (old : string) : option string :=
  match j with
  | JNull => Some old
  | JString s => Some s
  | _ => None
  end.

Definition decode_bool (j : json) (old : bool) : option bool :=
  match j with
  | JNull => Some old
  | JBool b => Some b
  | _ => None
  end.

(** A [[]string]: element [i] is decoded into the old element [i] when the
    old slice has one, into [""] otherwise. *)
Fixpoint decode_elems (elems : list json) (old : list string) : option (list string) :=
  match elems with
  | [] => Some []
  | j :: elems' =>
      match decode_string j (hd "" old), decode_elems elems' (tl old) with
      | Some s, Some l => Some (s :: l)
      | _, _ => None
      end
  end.

Definition decode_strings (j : json) (old : option (list string))
  : option (option (list string)) :=
  match j with
  | JNull => Some None
  | JArray elems =>
      match decode_elems elems (default [] old) with
      | Some l => Some (Some l)
      | None => None
      end
  | _ => None
  end.

(** A [map[string]V]: a nil map is allocated, an existing one is kept and
    added to; each member is decoded into a fresh zero [V] and stored under
    its name, a later member replacing an earlier one of the same name. *)
Definition decode_map {V} (dec : json → V → option V) (zero : V)
    (j : json) (old : option (gmap string V)) : option (option (gmap string V)) :=
  match j with
  | JNull => Some None
  | JObject members =>
      match foldl (λ acc kv, match acc, dec kv.2 zero with
                             | Some m, Some v => Some (<[kv.1 := v]> m)
                             | _, _ => None
                             end)
                  (Some (default ∅ old)) members with
      | Some m => Some (Some m)
      | None => None
      end
  | _ => None
  end.

(** The folding of a name under which [encoding/json] compares an object
    member with the struct's field names: ASCII letters to upper case; of
    the other characters only U+017F (long s) and U+212A (Kelvin sign)
    fold to an ASCII letter, [S] and [K]. *)
Fixpoint foldName (s : string) : string :=
  match s with
  | EmptyString => EmptyString
  | String c s' =>
      let n := nat_of_ascii c in
      if ((97 <=? n) && (n <=? 122))%nat
      then String (ascii_of_nat (n - 32)) (foldName s')
      else match s' with
           | String c1 s'' =>
               if ((n =? 197) && (nat_of_ascii c1 =? 191))%nat
               then String "S" (foldName s'')
               else match s'' with
                    | String c2 s''' =>
                        if ((n =? 226) && (nat_of_ascii c1 =? 132)
                            && (nat_of_ascii c2 =? 170))%nat
                        then String "K" (foldName s''')
                        else String c (foldName s')
                    | EmptyString => String c (foldName s')
                    end
           | EmptyString => String c EmptyString
           end
  end.

(** The index of the first name among [names] for which [test] holds. *)
Fixpoint find_name (test : string → bool) (names : list string) : option nat :=
  match names with
  | [] => None
  | n :: names' => if test n then Some O else S <$> find_name test names'
  end.

(** The field an object member goes to: the one of exactly that name, or
    else the first one whose name folds to the same text; none if there is
    no such field (the member is skipped). *)
Definition field_index (fields : list string) (key : string) : option nat :=
  match find_name (String.eqb key) fields with
  | Some i => Some i
  | None => find_name (λ n, String.eqb (foldName n) (foldName key)) fields
  end.

(** A struct with the JSON field names [fields], whose field [i] is
    decoded by [set i]. *)
Definition decode_struct {T} (fields : list string) (set : nat → json → T → option T)
    (j : json) (old : T) : option T :=
  match j with
  | JNull => Some old
  | JObject members =>
      foldl (λ acc kv, match acc with
                       | Some t =>
                           match field_index fields kv.1 with
                           | Some i => set i kv.2 t
                           | None => Some t
                           end
                       | None => None
                       end)
            (Some old) members
  | _ => None
  end.

(** *** Writing *)

(** A field tagged [omitempty] is left out when its value is empty: false,
    the empty string, a nil or empty slice or map. *)
Definition omitempty (name : string) (empty : bool) (j : json) : list (string * json) :=
  if empty then [] else [(name, j)].

Definition is_empty_string (s : string) : bool :=
  match s with EmptyString => true | _ => false end.

Definition is_empty_slice {A} (l : option (list A)) : bool :=
  match l with Some (_ :: _) => false | _ => true end.

Definition is_empty_map {V} (m : option (gmap string V)) : bool :=
  match m with Some m => (size m =? 0)%nat | None => true end.

(** A slice that is not nil is an array; a nil one is [null]. *)
Definition encode_strings (l : option (list string)) : json :=
  match l with
  | Some l => JArray (JString <$> l)
  | None => JNull
  end.

(** The members of a map are written in the order of their names, compared
    byte by byte. *)
Definition sorted_names {V} (m : gmap string V) : list string :=
  merge_sort String.le (elements (dom m)).

Definition encode_map {V} (enc : V → json) (m : option (gmap string V)) : json :=
  match m with
  | Some m => JObject (omap (λ k, (λ v, (k, enc v)) <$> m !! k) (sorted_names m))
  | None => JNull
  end.

(** The value of the member [name] of an object, the last one if the name
    is repeated. *)
Definition member (name : string) (j : json) : option json :=
  match j with
  | JObject members => (λ r, r.2.2) <$> list_find (λ kv, kv.1 = name) (reverse members)
  | _ => None
  end.

End GoJson.

(** ** The program *)

Section program.
Import GoStrings utils adcp core GoJson.

(** *** What the program runs in

    The state of the machine (processes, network, files) is a [World]; an
    operation that acts on it takes the world and returns the next one. *)

Variable World : Type.

(** [exec.CommandContext(ctx, "sh", "-c", cmd).CombinedOutput()]: the
    combined output, and the error of a run that failed. *)
Variable sh : string → World → (string * option string) * World.

(** What an HTTP GET of a URL comes to: the request cannot be built, the
    round trip fails, or a response arrives with a status code and a body
    that is read to its end or fails to be. *)
Inductive http_outcome : Type :=
| http_bad_request (err : string)
| http_failed (err : string)
| http_response (status : nat) (body : result string).

Variable http_get : string → World → http_outcome * World.

(** [os.ReadFile(path)]: the content of a file that can be read. *)
Variable ReadFile : string → World → option string.

(** [protojson.UnmarshalOptions{DiscardUnknown: true}.Unmarshal] into an
    [adcp.PrefetchResult]. *)
Variable protojson_Unmarshal : string → result PrefetchResult.

(** The text [%v] prints for the unset case of the oneof of a
    [PrefetchEntry] (generated code). *)
Variable PrefetchEntry_not_set_String : string.

(** The text syntax of JSON: [json_parse] reads a text as [json.Unmarshal]
    does before it looks at the struct ([None] on a syntax error), and
    [json_indent] writes a value as [json.MarshalIndent(v, "", "  ")] lays
    it out. *)
Variable json_parse : string → option json.
Variable json_indent : json → string.

(** A Go function on the world that returns [(T, error)]. *)
Definition M (A : Type) : Type := World → result A * World.

Definition ret {A} (a : A) : M A := λ w, (Ok a, w).

Definition fail {A} (msg : string) : M A := λ w, (Err msg, w).

Definition bind {A B} (m : M A) (k : A → M B) : M B :=
  λ w, match m w with
       | (Ok a, w') => k a w'
       | (Err e, w') => (Err e, w')
       end.

(** [if err != nil { return ..., fmt.Errorf(prefix + ": %w", err) }]. *)
Definition wrap {A} (prefix : string) (m : M A) : M A :=
  λ w, match m w with
       | (Ok a, w') => (Ok a, w')
       | (Err e, w') => (Err (prefix +:+ ": " +:+ e), w')
       end.

Notation "x <- m ;; k" := (bind m (λ x, k))
  (at level 100, m at next level, right associativity, only parsing).

(** *** [utils.ExecuteCommand] and [utils.FetchGithub]

    Taken from [executeCommand] and [fetchGithub] of the generators, where
    the sources have them; the later versions call them from [core/utils]. *)

Definition ExecuteCommand (cmd : string) : M string :=
  λ w, if String.eqb cmd "" then (Err "command cannot be empty", w)
       else match sh cmd w with
            | ((output, Some err), w') =>
                (Err ("command execution failed: " +:+ err
                        +:+ " (output: " +:+ output +:+ ")"), w')
            | ((output, None), w') => (Ok output, w')
            end.

Definition FetchGithub (ref : option GitReference) : M string :=
  match ref with
  | None => fail "github reference cannot be nil"
  | Some ref =>
      if String.eqb (ref_path ref) "" then fail "github path cannot be empty"
      else match ConvertToRawURL (ref_path ref) (ref_version ref) with
           | Err e => fail e
           | Ok url =>
               λ w, match http_get url w with
                    | (http_bad_request e, w') =>
                        (Err ("failed to create request: " +:+ e), w')
                    | (http_failed e, w') =>
                        (Err ("failed to fetch from github: " +:+ e), w')
                    | (http_response status body, w') =>
                        if negb (status =? 200)%nat
                        then (Err ("github fetch returned status " +:+ pretty status), w')
                        else match body with
                             | Err e => (Err ("failed to read response body: " +:+ e), w')
                             | Ok body => (Ok body, w')
                             end
                    end
           end
  end.

(** *** The content resolver: [adcp/core/generators] *)

Definition prefetch_lookup (genCtx : option GenerationContext) (id : string) : M string :=
  match GetPrefetched genCtx !! id with
  | None => fail ("prefetch id [" +:+ id +:+ "] not found")
  | Some data => ret (data_data data)
  end.

Definition fetchCombinedItem (item : option CombinedContextSource_Item)
    (genCtx : option GenerationContext) : M string :=
  match item with
  | None => fail "combined item cannot be nil"
  | Some (Item_Text text) => ret text
  | Some (Item_Cmd cmd) => ExecuteCommand cmd
  | Some (Item_Github github) => FetchGithub (Some github)
  | Some (Item_PrefetchId id) => prefetch_lookup genCtx id
  | Some Item_not_set => fail "unknown or unset combined item type"
  end.

(** The loop of [fetchCombined] from item [i] on; [builder] is what the
    [strings.Builder] holds. *)
Fixpoint fetchCombined_items (i : nat) (items : list (option CombinedContextSource_Item))
    (genCtx : option GenerationContext) (builder : string) : M string :=
  match items with
  | [] => ret builder
  | item :: items' =>
      λ w, match fetchCombinedItem item genCtx w with
           | (Err e, w') =>
               (Err ("failed to fetch combined item " +:+ pretty i +:+ ": " +:+ e), w')
           | (Ok content, w') =>
               fetchCombined_items (S i) items' genCtx (builder +:+ content) w'
           end
  end.

Definition fetchCombined (combined : option CombinedContextSource)
    (genCtx : option GenerationContext) : M string :=
  match combined with
  | None => fail "combined source cannot be nil"
  | Some combined =>
      let items := combined_items combined in
      if (length items =? 0)%nat then ret ""
      else fetchCombined_items 0 items genCtx ""
  end.

Definition fetchContent (from : option ContextFrom) (genCtx : option GenerationContext)
  : M string :=
  match from with
  | None => fail "from source cannot be nil"
  | Some (ContextFrom_Text text) => ret text
  | Some (ContextFrom_Cmd cmd) => ExecuteCommand cmd
  | Some (ContextFrom_Github github) => FetchGithub (Some github)
  | Some (ContextFrom_Combined combined) => fetchCombined (Some combined) genCtx
  | Some (ContextFrom_PrefetchId id) => prefetch_lookup genCtx id
  | Some ContextFrom_not_set => fail "unknown or unset context source type"
  end.

Definition materializeEntry (entry : option ContextEntry)
    (genCtx : option GenerationContext) : M MaterializedResult_Entry :=
  let path := GetPath entry in
  if String.eqb path "" then fail "entry path cannot be empty"
  else match entry ≫= context_from with
       | None => fail "entry must have a 'from' source"
       | Some from =>
           content <- wrap "failed to fetch content" (fetchContent (Some from) genCtx) ;;
           ret (file_entry path content)
       end.

(** The loop of [Context.Materialize]. *)
Fixpoint Context_Materialize_entries (entries : list (option ContextEntry))
    (genCtx : option GenerationContext) (resultEntries : list MaterializedResult_Entry)
  : M (list MaterializedResult_Entry) :=
  match entries with
  | [] => ret resultEntries
  | entry :: entries' =>
      materializedEntry <-
        wrap ("failed to materialize entry for path " +:+ GetPath entry)
             (materializeEntry entry genCtx) ;;
      Context_Materialize_entries entries' genCtx (resultEntries ++ [materializedEntry])
  end.

(** [Context.Materialize]; a nil and an empty [entries] both give a result
    without entries. *)
Definition Context_Materialize (contextMsg : option Context)
    (genCtx : option GenerationContext) : M MaterializedResult :=
  match contextMsg with
  | None => fail "context cannot be nil"
  | Some contextMsg =>
      resultEntries <- Context_Materialize_entries (context_entries contextMsg) genCtx [] ;;
      ret {| result_entries := resultEntries |}
  end.

(** *** The prefetch processor: [adcp/core/prefetch/prefetch.go] *)

Definition processEntry (entry : PrefetchEntry) : M string :=
  match entry with
  | PrefetchEntry_Cmd cmd =>
      if String.eqb cmd "" then fail "cmd cannot be empty"
      else wrap "command execution failed" (ExecuteCommand cmd)
  | PrefetchEntry_not_set =>
      fail ("unknown or unset prefetch entry type [" +:+ PrefetchEntry_not_set_String +:+ "]")
  end.

(** [for _, d := range res.GetData() { result[d.GetId()] = d }]. *)
Definition store_data (result : gmap string FetchedData) (res : PrefetchResult)
  : gmap string FetchedData :=
  foldl (λ result d, <[data_id d := d]> result) result (prefetch_data res).

(** The loop of [Process] from entry [i] on. *)
Fixpoint Process_entries (i : nat) (entries : list (option PrefetchEntry))
    (result : gmap string FetchedData) : M (gmap string FetchedData) :=
  match entries with
  | [] => ret result
  | None :: _ => fail ("prefetch entry at index " +:+ pretty i +:+ " is nil")
  | Some entry :: entries' =>
      λ w, match processEntry entry w with
           | (Err e, w') =>
               (Err ("failed to process entry at index " +:+ pretty i +:+ ": " +:+ e), w')
           | (Ok data, w') =>
               match protojson_Unmarshal data with
               | Err e => (Err ("failed to unmarshal prefetch result: " +:+ e), w')
               | Ok res => Process_entries (S i) entries' (store_data result res) w'
               end
           end
  end.

(** [Processor.Process]: the map, nil ([None]) when there is no entry; on
    an error the map returned with it is nil. *)
Definition Process (prefetch : option Prefetch) : M (option (gmap string FetchedData)) :=
  let entries := GetEntries prefetch in
  if (length entries =? 0)%nat then ret None
  else result <- Process_entries 0 entries ∅ ;; ret (Some result).

(** *** The orchestrator: [adcp/core/recipes] *)

(** The interface [recipes.IDEProvider]. *)
Record IDEProvider : Type := {
  IDEProvider_Materialize : option Ide → M MaterializedResult;
}.

(** [Recipe.Materialize] of a [Recipe{IDE}]. *)
Definition Recipe_Materialize (IDE : IDEProvider) (recipe : option Recipe)
  : M MaterializedResult :=
  match recipe with
  | None => fail "recipe cannot be nil"
  | Some recipe =>
      genCtx <-
        match recipe_prefetch recipe with
        | Some pf =>
            entries <- wrap "failed to process prefetch" (Process (Some pf)) ;;
            ret {| Prefetched := entries |}
        | None => ret {| Prefetched := None |}
        end ;;
      resultEntries <-
        match recipe_context recipe with
        | Some context =>
            contextResult <- wrap "failed to materialize context"
                               (Context_Materialize (Some context) (Some genCtx)) ;;
            ret ([] ++ result_entries contextResult)
        | None => ret []
        end ;;
      resultEntries <-
        match recipe_ide recipe with
        | Some ide =>
            ideResult <- wrap "failed to materialize IDE configuration"
                           (IDEProvider_Materialize IDE (Some ide)) ;;
            ret (resultEntries ++ result_entries ideResult)
        | None => ret resultEntries
        end ;;
      ret {| result_entries := resultEntries |}
  end.

(** *** The MCP servers file: [adcp/core/plugins/shared/ide.go] *)

(** [mcpServerConfig]; [Args] and [Env] may be nil. *)
Record mcpServerConfig : Type := {
  Type_ : string;
  Command : string;
  Args : option (list string);
  Env : option (gmap string string);
  Url : string;
}.

Definition mcpServerConfig_zero : mcpServerConfig :=
  {| Type_ := ""; Command := ""; Args := None; Env := None; Url := "" |}.

(** [mcpJson]. *)
Record mcpJson : Type := {
  McpServers : option (gmap string mcpServerConfig);
}.

Definition mcpJson_zero : mcpJson := {| McpServers := None |}.

(** The JSON names of the fields of [mcpServerConfig], in their order. *)
Definition mcpServerConfig_fields : list string :=
  ["type"; "command"; "args"; "env"; "url"].

Definition decode_mcpServerConfig (j : json) (old : mcpServerConfig)
  : option mcpServerConfig :=
  decode_struct mcpServerConfig_fields
    (λ i v c,
       match i with
       | 0 => s ← decode_string v (Type_ c);
              Some {| Type_ := s; Command := Command c; Args := Args c;
                      Env := Env c; Url := Url c |}
       | 1 => s ← decode_string v (Command c);
              Some {| Type_ := Type_ c; Command := s; Args := Args c;
                      Env := Env c; Url := Url c |}
       | 2 => l ← decode_strings v (Args c);
              Some {| Type_ := Type_ c; Command := Command c; Args := l;
                      Env := Env c; Url := Url c |}
       | 3 => m ← decode_map decode_string "" v (Env c);
              Some {| Type_ := Type_ c; Command := Command c; Args := Args c;
                      Env := m; Url := Url c |}
       | _ => s ← decode_string v (Url c);
              Some {| Type_ := Type_ c; Command := Command c; Args := Args c;
                      Env := Env c; Url := s |}
       end) j old.

(** Every field of [mcpServerConfig] is tagged [omitempty]. *)
Definition encode_mcpServerConfig (c : mcpServerConfig) : json :=
  JObject (omitempty "type" (is_empty_string (Type_ c)) (JString (Type_ c))
           ++ omitempty "command" (is_empty_string (Command c)) (JString (Command c))
           ++ omitempty "args" (is_empty_slice (Args c)) (encode_strings (Args c))
           ++ omitempty "env" (is_empty_map (Env c)) (encode_map JString (Env c))
           ++ omitempty "url" (is_empty_string (Url c)) (JString (Url c))).

Definition decode_mcpJson (j : json) (old : mcpJson) : option mcpJson :=
  decode_struct ["mcpServers"]
    (λ _ v cm,
       m ← decode_map decode_mcpServerConfig mcpServerConfig_zero v (McpServers cm);
       Some {| McpServers := m |}) j old.

Definition encode_mcpJson (cm : mcpJson) : json :=
  JObject [("mcpServers", encode_map encode_mcpServerConfig (McpServers cm))].

(** [json.Unmarshal([]byte(data), &cm)]: the struct read, or [None] for
    [err != nil]. *)
Definition Unmarshal_mcpJson (data : string) (cm : mcpJson) : option mcpJson :=
  j ← json_parse data; decode_mcpJson j cm.

(** The [mcpServerConfig] the loop of [buildMcpJSON] builds for a server
    that has a type. *)
Definition server_config (s : McpServer) : mcpServerConfig :=
  match s with
  | McpServer_Http url =>
      {| Type_ := "http"; Command := ""; Args := None; Env := None; Url := url |}
  | McpServer_Stdio cmd =>
      let parts := if String.eqb cmd "" then [] else Fields cmd in
      {| Type_ := "stdio";
         Command := match parts with p :: _ => p | [] => "" end;
         Args := match parts with _ :: (_ :: _) as rest => Some rest | _ => None end;
         Env := Some ∅;
         Url := "" |}
  | McpServer_not_set => mcpServerConfig_zero
  end.

(** One iteration of the loop over [mcp.GetServers()]. *)
Definition add_server (servers : gmap string mcpServerConfig)
    (entry : string * option McpServer) : gmap string mcpServerConfig :=
  match entry.2 with
  | None | Some McpServer_not_set => servers
  | Some s =>
      let srv := server_config s in
      if negb (String.eqb (Type_ srv) "") || negb (String.eqb (Url srv) "")
         || negb (String.eqb (Command srv) "")
      then <[entry.1 := srv]> servers
      else servers
  end.

(** [cm] after the existing content is parsed: the zero struct when there
    is no content or when parsing fails. *)
Definition existing_mcpJson (existingContent : string) : mcpJson :=
  let cm := mcpJson_zero in
  if negb (String.eqb existingContent "") then
    match Unmarshal_mcpJson existingContent cm with
    | Some cm => cm
    | None => mcpJson_zero
    end
  else cm.

(** [cm.McpServers] once [if cm.McpServers == nil] has made it a map. *)
Definition servers_of (cm : mcpJson) : gmap string mcpServerConfig :=
  match McpServers cm with Some m => m | None => ∅ end.

(** The struct [buildMcpJSON] marshals.  Go ranges over a map in an order
    it does not fix; [map_to_list] is one order, and the iterations write
    to different keys. *)
Definition merged_mcpJson (mcp : Mcp) (existingContent : string) : mcpJson :=
  let cm := existing_mcpJson existingContent in
  let servers := servers_of cm in
  {| McpServers := Some (foldl add_server servers (map_to_list (mcp_servers mcp))) |}.

(** [buildMcpJSON]; marshalling a [mcpJson] cannot fail. *)
Definition buildMcpJSON (mcp : option Mcp) (existingContent : string) : result string :=
  match mcp with
  | None => Err "mcp cannot be nil"
  | Some mcp => Ok (json_indent (encode_mcpJson (merged_mcpJson mcp existingContent)))
  end.

(** *** The Claude settings file: [adcp/core/plugins/claude/ide.go] *)

(** The anonymous struct of the field [Permissions] of [claudeSettings]. *)
Record claudePermissions : Type := {
  Allow : option (list string);
  Deny : option (list string);
  Ask : option (list string);
  DefaultMode : string;
}.

Record claudeSettings : Type := {
  Permissions_ : claudePermissions;
  EnabledMcpjsonServers : option (list string);
  EnableAllProjectMcpServers : bool;
}.

Definition claudeSettings_zero : claudeSettings :=
  {| Permissions_ := {| Allow := None; Deny := None; Ask := None; DefaultMode := "" |};
     EnabledMcpjsonServers := None;
     EnableAllProjectMcpServers := false |}.

Definition decode_claudePermissions (j : json) (old : claudePermissions)
  : option claudePermissions :=
  decode_struct ["allow"; "deny"; "ask"; "defaultMode"]
    (λ i v p,
       match i with
       | 0 => l ← decode_strings v (Allow p);
              Some {| Allow := l; Deny := Deny p; Ask := Ask p; DefaultMode := DefaultMode p |}
       | 1 => l ← decode_strings v (Deny p);
              Some {| Allow := Allow p; Deny := l; Ask := Ask p; DefaultMode := DefaultMode p |}
       | 2 => l ← decode_strings v (Ask p);
              Some {| Allow := Allow p; Deny := Deny p; Ask := l; DefaultMode := DefaultMode p |}
       | _ => s ← decode_string v (DefaultMode p);
              Some {| Allow := Allow p; Deny := Deny p; Ask := Ask p; DefaultMode := s |}
       end) j old.

Definition decode_claudeSettings (j : json) (old : claudeSettings) : option claudeSettings :=
  decode_struct ["permissions"; "enabledMcpjsonServers"; "enableAllProjectMcpServers"]
    (λ i v s,
       match i with
       | 0 => p ← decode_claudePermissions v (Permissions_ s);
              Some {| Permissions_ := p;
                      EnabledMcpjsonServers := EnabledMcpjsonServers s;
                      EnableAllProjectMcpServers := EnableAllProjectMcpServers s |}
       | 1 => l ← decode_strings v (EnabledMcpjsonServers s);
              Some {| Permissions_ := Permissions_ s;
                      EnabledMcpjsonServers := l;
                      EnableAllProjectMcpServers := EnableAllProjectMcpServers s |}
       | _ => b ← decode_bool v (EnableAllProjectMcpServers s);
              Some {| Permissions_ := Permissions_ s;
                      EnabledMcpjsonServers := EnabledMcpjsonServers s;
                      EnableAllProjectMcpServers := b |}
       end) j old.

(** [permissions] has no [omitempty]; every other field has. *)
Definition encode_claudeSettings (s : claudeSettings) : json :=
  let p := Permissions_ s in
  JObject
    ([("permissions",
       JObject (omitempty "allow" (is_empty_slice (Allow p)) (encode_strings (Allow p))
                ++ omitempty "deny" (is_empty_slice (Deny p)) (encode_strings (Deny p))
                ++ omitempty "ask" (is_empty_slice (Ask p)) (encode_strings (Ask p))
                ++ omitempty "defaultMode" (is_empty_string (DefaultMode p))
                     (JString (DefaultMode p))))]
     ++ omitempty "enabledMcpjsonServers" (is_empty_slice (EnabledMcpjsonServers s))
          (encode_strings (EnabledMcpjsonServers s))
     ++ omitempty "enableAllProjectMcpServers" (negb (EnableAllProjectMcpServers s))
          (JBool (EnableAllProjectMcpServers s))).

Definition Unmarshal_claudeSettings (data : string) (s : claudeSettings)
  : option claudeSettings :=
  j ← json_parse data; decode_claudeSettings j s.

Definition HasType (p : OperationPermission) : bool :=
  match p with Permission_not_set => false | _ => true end.

Definition formatPermission (p : OperationPermission) : string :=
  match p with
  | Permission_Bash arg => "Bash(" +:+ arg +:+ ")"
  | Permission_Read arg => "Read(" +:+ arg +:+ ")"
  | Permission_Write arg => "Write(" +:+ arg +:+ ")"
  | Permission_not_set => ""
  end.

(** [if s == nil { s = []string{} }]. *)
Definition non_nil (l : option (list string)) : option (list string) :=
  match l with None => Some [] | Some _ => l end.

(** The elements a [range] over a slice visits. *)
Definition elems (l : option (list string)) : list string := default [] l.

(** The new permissions of one list: [formatPermission] of those that have
    a type. *)
Definition new_permissions (ps : list OperationPermission) : list string :=
  formatPermission <$> filter (λ p, HasType p = true) ps.

(** The struct [buildClaudeSettingsJSON] marshals. *)
Definition merged_claudeSettings (perms : option Permissions)
    (mcpServerNames commandNames : list string) (existingContent : string)
  : claudeSettings :=
  let s := claudeSettings_zero in
  let s :=
    if negb (String.eqb existingContent "") then
      match Unmarshal_claudeSettings existingContent s with
      | Some s => s
      | None => claudeSettings_zero
      end
    else s in
  let allow := non_nil (Allow (Permissions_ s)) in
  let deny := non_nil (Deny (Permissions_ s)) in
  let ask := non_nil (Ask (Permissions_ s)) in
  let defaultMode := "acceptEdits" in
  let enabled := non_nil (EnabledMcpjsonServers s) in
  let enableAll := true in
  let newAllow :=
    match perms with
    | Some perms => new_permissions (permissions_allow perms)
    | None => []
    end in
  let newDeny :=
    match perms with
    | Some perms => new_permissions (permissions_deny perms)
    | None => []
    end in
  let mcpAllowPermissions := (λ serverName, "mcp__" +:+ serverName) <$> mcpServerNames in
  let newAllow := newAllow ++ mcpAllowPermissions in
  let cmdAllow :=
    (λ name, "SlashCommand(/" +:+ name +:+ ")")
      <$> filter (λ name, name ≠ "") commandNames in
  let newAllow := newAllow ++ cmdAllow in
  {| Permissions_ :=
       {| Allow := Some (claude.mergeUniqueStrings (elems allow) newAllow);
          Deny := Some (claude.mergeUniqueStrings (elems deny) newDeny);
          Ask := ask;
          DefaultMode := defaultMode |};
     EnabledMcpjsonServers :=
       Some (claude.mergeUniqueStrings (elems enabled) mcpServerNames);
     EnableAllProjectMcpServers := enableAll |}.

(** [buildClaudeSettingsJSON]; marshalling a [claudeSettings] cannot fail. *)
Definition buildClaudeSettingsJSON (perms : option Permissions)
    (mcpServerNames commandNames : list string) (existingContent : string)
  : result string :=
  Ok (json_indent (encode_claudeSettings
                     (merged_claudeSettings perms mcpServerNames commandNames
                        existingContent))).

(** *** The shared IDE plugin: [adcp/core/plugins/shared/ide.go] *)

Record SettingsInput : Type := {
  input_Permissions : option Permissions;
  input_MCPServerNames : list string;
  input_CommandNames : list string;
}.

(** The interface [IDESettings]. *)
Record IDESettings : Type := {
  Update : SettingsInput → M (list MaterializedResult_Entry);
}.

Definition noOpSettings : IDESettings := {| Update := λ _, ret [] |}.

(** [shared.IDE]; a nil [Settings] is [None]. *)
Record IDE : Type := {
  CommandsFolder : string;
  MCPServersJSONPath : string;
  Settings : option IDESettings;
}.

Definition fetchCommandContent (from : option CommandFrom) : M string :=
  match from with
  | None | Some CommandFrom_not_set => fail "command 'from' source cannot be nil"
  | Some (CommandFrom_Text text) => ret text
  | Some (CommandFrom_Cmd cmd) => ExecuteCommand cmd
  | Some (CommandFrom_Github github) => FetchGithub (Some github)
  end.

(** The loop of [materializeCommands]. *)
Fixpoint materializeCommands_entries (i : IDE) (cmds : list (option adcp.Command))
    (entries : list MaterializedResult_Entry) : M (list MaterializedResult_Entry) :=
  match cmds with
  | [] => ret entries
  | c :: cmds' =>
      let name := GetName c in
      if String.eqb name "" then fail "command name cannot be empty"
      else match c ≫= command_from with
           | None => fail ("command " +:+ name +:+ " must have a 'from' source")
           | Some from =>
               content <- wrap ("failed to materialize command " +:+ name)
                            (fetchCommandContent (Some from)) ;;
               let path := CommandsFolder i +:+ "/" +:+ name +:+ ".md" in
               materializeCommands_entries i cmds' (entries ++ [file_entry path content])
           end
  end.

Definition materializeCommands (i : IDE) (commands : option Commands)
  : M (list MaterializedResult_Entry) :=
  match commands with
  | None => ret []
  | Some commands => materializeCommands_entries i (commands_entries commands) []
  end.

Definition materializeMcp (i : IDE) (mcp : option Mcp) : M (list MaterializedResult_Entry) :=
  match mcp with
  | None => ret []
  | Some _ =>
      if String.eqb (MCPServersJSONPath i) "" then ret []
      else
        λ w,
          let existingContent := default "" (ReadFile (MCPServersJSONPath i) w) in
          match buildMcpJSON mcp existingContent with
          | Err e => (Err e, w)
          | Ok mcpContent => (Ok [file_entry (MCPServersJSONPath i) mcpContent], w)
          end
  end.

(** The names [IDE.Materialize] collects for the settings: the keys of the
    servers, in the order of the [range], and the non-empty names of the
    commands that are not nil. *)
Definition server_names (ide : Ide) : list string :=
  match ide_mcp ide with
  | Some mcp => (map_to_list (mcp_servers mcp)).*1
  | None => []
  end.

Definition command_names (ide : Ide) : list string :=
  match ide_commands ide with
  | Some commands =>
      omap (λ c, match c with
                 | Some c => if String.eqb (command_name c) "" then None
                             else Some (command_name c)
                 | None => None
                 end) (commands_entries commands)
  | None => []
  end.

(** [IDE.Materialize]. *)
Definition IDE_Materialize (i : IDE) (ide : option Ide) : M MaterializedResult :=
  match ide with
  | None => fail "ide cannot be nil"
  | Some ide =>
      entries <-
        match ide_commands ide with
        | Some commands =>
            cmdEntries <- materializeCommands i (Some commands) ;;
            ret ([] ++ cmdEntries)
        | None => ret []
        end ;;
      let mcpServerNames := server_names ide in
      let commandNames := command_names ide in
      let ideSett := match Settings i with Some s => s | None => noOpSettings end in
      settingEntries <- Update ideSett {| input_Permissions := ide_permissions ide;
                                         input_MCPServerNames := mcpServerNames;
                                         input_CommandNames := commandNames |} ;;
      let entries := entries ++ settingEntries in
      mcpEntries <- materializeMcp i (ide_mcp ide) ;;
      let entries := entries ++ mcpEntries in
      ret {| result_entries := entries |}
  end.

(** [shared.IDE] is an [IDEProvider]. *)
Definition IDE_provider (i : IDE) : IDEProvider :=
  {| IDEProvider_Materialize := IDE_Materialize i |}.

(** *** The Claude plugin: [adcp/core/plugins/claude/ide.go] *)

Definition settingsPath : string := ".claude/settings.local.json".

Definition materializePermissions (perms : option Permissions)
    (mcpServerNames commandNames : list string) : M (list MaterializedResult_Entry) :=
  λ w,
    let existingContent := default "" (ReadFile settingsPath w) in
    match buildClaudeSettingsJSON perms mcpServerNames commandNames existingContent with
    | Err e => (Err e, w)
    | Ok settingsContent => (Ok ([] ++ [file_entry settingsPath settingsContent]), w)
    end.

(** [settings.Update]. *)
Definition claude_settings : IDESettings :=
  {| Update := λ input, materializePermissions (input_Permissions input)
                          (input_MCPServerNames input) (input_CommandNames input) |}.

(** [claude.NewIDEProvider()]. *)
Definition claude_IDE : IDE :=
  {| CommandsFolder := ".claude/commands";
     MCPServersJSONPath := ".mcp.json";
     Settings := Some claude_settings |}.

(** *** The combined source *)

Lemma append_cons (x : ascii) (a b : string) : String x a +:+ b = String x (a +:+ b).
Proof. reflexivity. Qed.

Lemma append_assoc (a b c : string) : (a +:+ b) +:+ c = a +:+ b +:+ c.
Proof. induction a as [|x a IH]; [done | by rewrite !append_cons, IH]. Qed.

Lemma append_empty_r (a : string) : a +:+ "" = a.
Proof. induction a as [|x a IH]; [done | by rewrite append_cons, IH]. Qed.

(** The contents of a list, one after the other, nothing in between. *)
Definition concat_all (contents : list string) : string :=
  foldr String.append "" contents.

(** [resolve_all genCtx items w contents w']: from the world [w] the items
    resolve one after the other, each in the world the one before has left,
    to [contents]; [w'] is the world after the last. *)
Inductive resolve_all (genCtx : option GenerationContext)
  : list (option CombinedContextSource_Item) → World → list string → World → Prop :=
| resolve_all_nil w : resolve_all genCtx [] w [] w
| resolve_all_cons item items w content w1 contents w' :
    fetchCombinedItem item genCtx w = (Ok content, w1) →
    resolve_all genCtx items w1 contents w' →
    resolve_all genCtx (item :: items) w (content :: contents) w'.

(** [first_failure genCtx items w i e w']: item [i] is the first that does
    not resolve, with the error [e] and in the world [w']. *)
Definition first_failure (genCtx : option GenerationContext)
    (items : list (option CombinedContextSource_Item)) (w : World)
    (i : nat) (e : string) (w' : World) : Prop :=
  ∃ before item after contents w1,
    items = before ++ item :: after ∧ length before = i
    ∧ resolve_all genCtx before w contents w1
    ∧ fetchCombinedItem item genCtx w1 = (Err e, w').

Lemma fetchCombined_items_ok genCtx items : ∀ i builder w contents w',
  resolve_all genCtx items w contents w' →
  fetchCombined_items i items genCtx builder w = (Ok (builder +:+ concat_all contents), w').
Proof.
  induction items as [|item items IH]; intros i builder w contents w' Hres;
    inversion Hres as [|? ? ? content w1 contents' ? Hitem Hrest]; subst;
    cbn [fetchCombined_items concat_all foldr].
  - by rewrite append_empty_r.
  - rewrite Hitem. rewrite (IH _ _ _ _ _ Hrest). by rewrite append_assoc.
Qed.

Lemma fetchCombined_items_err genCtx items : ∀ i builder w k e w',
  first_failure genCtx items w k e w' →
  fetchCombined_items i items genCtx builder w
  = (Err ("failed to fetch combined item " +:+ pretty (i + k) +:+ ": " +:+ e), w').
Proof.
  induction items as [|item items IH];
    intros i builder w k e w' (before & bad & after & contents & w1 & Heq & Hlen & Hres & Hbad).
  - by destruct before.
  - destruct before as [|b before]; simpl in Heq, Hlen; simplify_eq;
      cbn [fetchCombined_items].
    + inversion Hres; subst. rewrite Hbad. by rewrite Nat.add_0_r.
    + inversion Hres as [|? ? ? content w2 contents' ? Hitem Hrest]; subst.
      rewrite Hitem.
      rewrite (IH (S i) _ _ (length before) e w').
      * by rewrite Nat.add_succ_comm.
      * by exists before, bad, after, contents', w1.
Qed.

(** Every list of items either resolves to its end or has a first item
    that fails. *)
Lemma resolve_all_or_first_failure genCtx items : ∀ w,
  (∃ contents w', resolve_all genCtx items w contents w')
  ∨ (∃ i e w', first_failure genCtx items w i e w').
Proof.
  induction items as [|item items IH]; intros w.
  - left. exists [], w. constructor.
  - destruct (fetchCombinedItem item genCtx w) as [[content|e] w1] eqn:Hitem.
    + destruct (IH w1) as [(contents & w' & Hres)|(i & e & w' & Hfail)].
      * left. exists (content :: contents), w'. by econstructor.
      * right. exists (S i), e, w'.
        destruct Hfail as (before & bad & after & contents & w2 & -> & <- & Hres & Hbad).
        exists (item :: before), bad, after, (content :: contents), w2.
        split_and!; try done. by econstructor.
    + right. exists 0, e, w1. exists [], item, items, [], w.
      split_and!; try done. constructor.
Qed.

(** C3.  A combined source whose items all resolve, one after the other,
    resolves to their contents in the order of the items with nothing in
    between; one without items resolves to the empty string, without an
    error; and when item [i] (counted from zero) is the first that does not
    resolve, the resolution fails with an error that names [i] and wraps
    that item's error, and returns no content.  One of the two cases always
    holds. *)
Theorem fetchCombined_concatenates (combined : CombinedContextSource)
    (genCtx : option GenerationContext) (w : World) :
  let items := combined_items combined in
  (items = [] → fetchCombined (Some combined) genCtx w = (Ok "", w))
  ∧ (∀ contents w',
       resolve_all genCtx items w contents w' →
       fetchCombined (Some combined) genCtx w = (Ok (concat_all contents), w'))
  ∧ (∀ i e w',
       first_failure genCtx items w i e w' →
       fetchCombined (Some combined) genCtx w
       = (Err ("failed to fetch combined item " +:+ pretty i +:+ ": " +:+ e), w'))
  ∧ ((∃ contents w', resolve_all genCtx items w contents w')
     ∨ (∃ i e w', first_failure genCtx items w i e w')).
Proof.
  intros items.
  assert (fetchCombined (Some combined) genCtx w = fetchCombined_items 0 items genCtx "" w)
    as ->.
  { unfold fetchCombined. fold items. by destruct items. }
  split; [|split; [|split]].
  - intros ->. done.
  - intros contents w' Hres. by rewrite (fetchCombined_items_ok _ _ 0 "" _ _ _ Hres).
  - intros i e w' Hfail. by rewrite (fetchCombined_items_err _ _ 0 "" _ _ _ _ Hfail).
  - apply resolve_all_or_first_failure.
Qed.

(** *** The prefetch processor *)

(** A nil entry at index [i]: the error names [i]. *)
Lemma Process_entries_nil_entry i entries result w :
  Process_entries i (None :: entries) result w
  = (Err ("prefetch entry at index " +:+ pretty i +:+ " is nil"), w).
Proof. reflexivity. Qed.

(** An entry at index [i] that cannot be processed (its type is not set,
    its command is empty or fails): the error names [i]. *)
Lemma Process_entries_failed_entry i entry entries result w e w' :
  processEntry entry w = (Err e, w') →
  Process_entries i (Some entry :: entries) result w
  = (Err ("failed to process entry at index " +:+ pretty i +:+ ": " +:+ e), w').
Proof. intros H. cbn [Process_entries]. by rewrite H. Qed.

Lemma processEntry_not_set w :
  processEntry PrefetchEntry_not_set w
  = (Err ("unknown or unset prefetch entry type [" +:+ PrefetchEntry_not_set_String +:+ "]"), w).
Proof. reflexivity. Qed.

Lemma processEntry_empty_cmd w :
  processEntry (PrefetchEntry_Cmd "") w = (Err "cmd cannot be empty", w).
Proof. reflexivity. Qed.

(** C7, where the code departs from it.  When the entry at index [i] is
    processed and its output is not a [PrefetchResult], the error is
    ["failed to unmarshal prefetch result: "] followed by the parser's
    error: the same text whatever [i] is.  No map comes with the error. *)
Theorem Process_entries_unparsed_output (i : nat) (entry : PrefetchEntry)
    (entries : list (option PrefetchEntry)) (result : gmap string FetchedData)
    (w w' : World) (data e : string) :
  processEntry entry w = (Ok data, w') →
  protojson_Unmarshal data = Err e →
  Process_entries i (Some entry :: entries) result w
  = (Err ("failed to unmarshal prefetch result: " +:+ e), w')
  ∧ Process (Some {| prefetch_entries := Some entry :: entries |}) w
    = (Err ("failed to unmarshal prefetch result: " +:+ e), w').
Proof.
  intros Hentry Hparse.
  assert (∀ i, Process_entries i (Some entry :: entries) result w
               = (Err ("failed to unmarshal prefetch result: " +:+ e), w')) as Hloop.
  { intros k. cbn [Process_entries]. by rewrite Hentry, Hparse. }
  split; [apply Hloop|].
  unfold Process, bind. cbn [GetEntries prefetch_entries length Nat.eqb Process_entries].
  by rewrite Hentry, Hparse.
Qed.

(** *** The orchestrator *)

(** C8.  For a recipe whose three steps succeed: the prefetch step (when
    there is a prefetch section) gives the map [prefetched] and no entry;
    the context materializer, run with that map (when there is a context
    section), gives [contextEntries]; the IDE materializer (when there is
    an IDE section) gives [ideEntries].  The result holds [contextEntries]
    followed by [ideEntries], each in its order, and an absent section
    gives no entry. *)
Theorem Recipe_Materialize_entries (IDE : IDEProvider) (recipe : Recipe)
    (w w1 w2 w3 : World) (prefetched : option (gmap string FetchedData))
    (contextEntries ideEntries : list MaterializedResult_Entry) :
  match recipe_prefetch recipe with
  | Some pf => Process (Some pf) w = (Ok prefetched, w1)
  | None => prefetched = None ∧ w1 = w
  end →
  match recipe_context recipe with
  | Some context =>
      Context_Materialize (Some context) (Some {| Prefetched := prefetched |}) w1
      = (Ok {| result_entries := contextEntries |}, w2)
  | None => contextEntries = [] ∧ w2 = w1
  end →
  match recipe_ide recipe with
  | Some ide =>
      IDEProvider_Materialize IDE (Some ide) w2 = (Ok {| result_entries := ideEntries |}, w3)
  | None => ideEntries = [] ∧ w3 = w2
  end →
  Recipe_Materialize IDE (Some recipe) w
  = (Ok {| result_entries := contextEntries ++ ideEntries |}, w3).
Proof.
  intros Hpf Hctx Hide. unfold Recipe_Materialize, bind, wrap, ret.
  destruct (recipe_prefetch recipe) as [pf|].
  - rewrite Hpf.
    destruct (recipe_context recipe) as [context|].
    + rewrite Hctx. cbn [result_entries app].
      destruct (recipe_ide recipe) as [ide|].
      * by rewrite Hide.
      * destruct Hide as [-> ->]. by rewrite app_nil_r.
    + destruct Hctx as [-> ->].
      destruct (recipe_ide recipe) as [ide|].
      * by rewrite Hide.
      * by destruct Hide as [-> ->].
  - destruct Hpf as [-> ->].
    destruct (recipe_context recipe) as [context|].
    + rewrite Hctx. cbn [result_entries app].
      destruct (recipe_ide recipe) as [ide|].
      * by rewrite Hide.
      * destruct Hide as [-> ->]. by rewrite app_nil_r.
    + destruct Hctx as [-> ->].
      destruct (recipe_ide recipe) as [ide|].
      * by rewrite Hide.
      * by destruct Hide as [-> ->].
Qed.

(** *** The Claude settings *)

(** C10.  Whatever the existing settings file holds, the struct that
    [buildClaudeSettingsJSON] marshals has [DefaultMode] ["acceptEdits"]
    and [EnableAllProjectMcpServers] true, and so has the document written:
    its member [permissions] has the member [defaultMode] with the string
    ["acceptEdits"], and its member [enableAllProjectMcpServers] is [true]. *)
Theorem buildClaudeSettingsJSON_mode_and_flag (perms : option Permissions)
    (mcpServerNames commandNames : list string) (existingContent : string) :
  let s := merged_claudeSettings perms mcpServerNames commandNames existingContent in
  DefaultMode (Permissions_ s) = "acceptEdits"
  ∧ EnableAllProjectMcpServers s = true
  ∧ buildClaudeSettingsJSON perms mcpServerNames commandNames existingContent
    = Ok (json_indent (encode_claudeSettings s))
  ∧ (member "permissions" (encode_claudeSettings s) ≫= member "defaultMode")
    = Some (JString "acceptEdits")
  ∧ member "enableAllProjectMcpServers" (encode_claudeSettings s) = Some (JBool true).
Proof.
  intros s. split_and!; try reflexivity.
  - unfold encode_claudeSettings.
    destruct (is_empty_slice (EnabledMcpjsonServers s));
      cbn [EnableAllProjectMcpServers s merged_claudeSettings negb omitempty app];
      cbn [member reverse]; unfold reverse; cbn [rev_append list_find decide fmap option_fmap option_map];
      destruct (is_empty_slice _), (is_empty_slice _), (is_empty_slice _); reflexivity.
  - unfold encode_claudeSettings.
    destruct (is_empty_slice (EnabledMcpjsonServers s)); reflexivity.
Qed.

(** *** The settings entry of the Claude plugin *)

Definition not_settings_path (e : MaterializedResult_Entry) : Prop :=
  file_path (entry_file e) ≠ settingsPath.

Lemma command_path_not_settings (name content : string) :
  not_settings_path
    (file_entry (CommandsFolder claude_IDE +:+ "/" +:+ name +:+ ".md") content).
Proof.
  unfold not_settings_path, settingsPath. cbn [entry_file file_entry file_path claude_IDE CommandsFolder].
  intros H. vm_compute in H. discriminate H.
Qed.

Lemma materializeCommands_entries_paths cmds : ∀ entries w out w',
  materializeCommands_entries claude_IDE cmds entries w = (Ok out, w') →
  ∃ new, out = entries ++ new ∧ Forall not_settings_path new.
Proof.
  induction cmds as [|c cmds IH]; intros entries w out w' H; cbn [materializeCommands_entries] in H.
  - injection H as <- <-. exists []. by rewrite app_nil_r.
  - destruct (String.eqb (GetName c) ""); [discriminate H|].
    destruct (c ≫= command_from) as [from|]; [|discriminate H].
    unfold bind, wrap in H.
    destruct (fetchCommandContent (Some from) w) as [[content|e] w1]; [|discriminate H].
    apply IH in H as (new & -> & Hnew).
    eexists (_ :: new). rewrite <-app_assoc. split; [done|].
    constructor; [apply command_path_not_settings | done].
Qed.

Lemma materializeMcp_claude mcp w es w' :
  materializeMcp claude_IDE mcp w = (Ok es, w') →
  w' = w ∧ Forall not_settings_path es.
Proof.
  unfold materializeMcp. destruct mcp as [mcp|]; cbn; [|by intros [= <- <-]].
  intros [= <- <-]. split; [done|]. by repeat constructor.
Qed.

(** C9.  For every Ide section [ide] and world [w]: when the shared IDE
    with the Claude settings returns a result, its entries are those of the
    commands, then one entry at [".claude/settings.local.json"], then those
    of the MCP servers file, and no entry of the commands or of the servers
    file has that path; it returns a result whenever the commands
    materialize; and for an Ide section without commands, permissions and
    servers the result is that one settings entry. *)
Theorem IDE_Materialize_claude_settings_entry (ide : Ide) (w : World) :
  (∀ res w',
     IDE_Materialize claude_IDE (Some ide) w = (Ok res, w') →
     ∃ cmdEntries settingsContent mcpEntries,
       result_entries res
       = cmdEntries ++ [file_entry settingsPath settingsContent] ++ mcpEntries
       ∧ Forall not_settings_path (cmdEntries ++ mcpEntries))
  ∧ (∀ cmdEntries w1,
       materializeCommands claude_IDE (ide_commands ide) w = (Ok cmdEntries, w1) →
       ∃ res, IDE_Materialize claude_IDE (Some ide) w = (Ok res, w1))
  ∧ IDE_Materialize claude_IDE
      (Some {| ide_commands := None; ide_permissions := None; ide_mcp := None |}) w
    = (Ok {| result_entries :=
               [file_entry settingsPath
                  (json_indent
                     (encode_claudeSettings
                        (merged_claudeSettings None [] []
                           (default "" (ReadFile settingsPath w)))))] |}, w).
Proof.
  split_and!.
  - intros res w'. unfold IDE_Materialize, bind, ret.
    destruct (ide_commands ide) as [commands|].
    + unfold materializeCommands.
      destruct (materializeCommands_entries _ _ _ w) as [[cmdEntries|e] w1] eqn:Hcmd;
        [|discriminate].
      apply materializeCommands_entries_paths in Hcmd as (new & -> & Hnew).
      cbn [claude_IDE Settings Update claude_settings materializePermissions
             buildClaudeSettingsJSON input_Permissions input_MCPServerNames
             input_CommandNames app].
      destruct (materializeMcp _ _ w1) as [[mcpEntries|e] w2] eqn:Hmcp; [|discriminate].
      apply materializeMcp_claude in Hmcp as [-> Hmcp].
      intros [= <- <-]. eexists new, _, mcpEntries. cbn [result_entries].
      split; [by rewrite <-app_assoc|]. by apply Forall_app.
    + cbn [claude_IDE Settings Update claude_settings materializePermissions
             buildClaudeSettingsJSON input_Permissions input_MCPServerNames
             input_CommandNames app].
      destruct (materializeMcp _ _ w) as [[mcpEntries|e] w2] eqn:Hmcp; [|discriminate].
      apply materializeMcp_claude in Hmcp as [-> Hmcp].
      intros [= <- <-]. eexists [], _, mcpEntries. cbn [result_entries]. done.
  - intros cmdEntries w1 Hcmd. unfold IDE_Materialize, bind, ret.
    assert (∀ w0, ∃ es, materializeMcp claude_IDE (ide_mcp ide) w0 = (Ok es, w0)) as Hmcp.
    { intros w0. unfold materializeMcp. destruct (ide_mcp ide); cbn; eauto. }
    destruct (ide_commands ide) as [commands|].
    + rewrite Hcmd.
      cbn [claude_IDE Settings Update claude_settings materializePermissions
             buildClaudeSettingsJSON input_Permissions input_MCPServerNames
             input_CommandNames app].
      destruct (Hmcp w1) as [es ->]. eauto.
    + cbn in Hcmd. injection Hcmd as <- <-.
      cbn [claude_IDE Settings Update claude_settings materializePermissions
             buildClaudeSettingsJSON input_Permissions input_MCPServerNames
             input_CommandNames app].
      destruct (Hmcp w) as [es ->]. eauto.
  - reflexivity.
Qed.

(** *** Reading back what was written

    A file written by the program is read again by the next run.  Of the
    text syntax it is assumed here that a written value is never the empty
    text; that a text written is read back as the value it was written from
    is a condition of the statements that need it. *)

Hypothesis json_indent_nonempty : ∀ j, json_indent j ≠ "".

Lemma decode_elems_strings (l old : list string) :
  decode_elems (JString <$> l) old = Some l.
Proof.
  revert old. induction l as [|s l IH]; intros old; [done|].
  cbn [fmap list_fmap decode_elems decode_string]. by rewrite IH.
Qed.

Lemma elem_of_sorted_names {V} (m : gmap string V) (k : string) :
  k ∈ sorted_names m ↔ is_Some (m !! k).
Proof.
  unfold sorted_names. rewrite merge_sort_Permutation, elem_of_elements.
  apply elem_of_dom.
Qed.

(** The map a list of names is read into, when the member of each name
    [k] of [m] is what [enc] writes for [m !! k]. *)
Definition read_names {V} (norm : V → V) (m : gmap string V)
    (acc : gmap string V) (names : list string) : gmap string V :=
  foldl (λ a k, match m !! k with Some v => <[k := norm v]> a | None => a end) acc names.

Lemma read_names_lookup {V} (norm : V → V) (m : gmap string V) names : ∀ acc j,
  read_names norm m acc names !! j
  = match (if decide (j ∈ names) then m !! j else None) with
    | Some v => Some (norm v)
    | None => acc !! j
    end.
Proof.
  induction names as [|k names IH]; intros acc j.
  - rewrite decide_False by apply not_elem_of_nil. done.
  - unfold read_names in *. cbn [foldl]. rewrite IH.
    destruct (decide (j ∈ names)) as [Hin|Hnin].
    + rewrite decide_True by (by right).
      destruct (m !! j) as [v|] eqn:Hj; [done|].
      destruct (m !! k) as [v'|] eqn:Hk; [|done].
      rewrite lookup_insert_ne; [done|]. intros ->. congruence.
    + destruct (decide (j = k)) as [->|Hne].
      * rewrite decide_True by (by left).
        destruct (m !! k) as [v|] eqn:Hk; [|done]. by rewrite lookup_insert_eq.
      * rewrite decide_False by (intros [?|?]%elem_of_cons; done).
        destruct (m !! k) as [v|]; [|done]. by rewrite lookup_insert_ne.
Qed.

Lemma decode_encode_map {V} (enc : V → json) (dec : json → V → option V)
    (zero : V) (norm : V → V) (m : gmap string V) :
  (∀ v, dec (enc v) zero = Some (norm v)) →
  decode_map dec zero (encode_map enc (Some m)) None = Some (Some (norm <$> m)).
Proof.
  intros Hdec. unfold decode_map, encode_map. cbn [default].
  assert (∀ names acc,
    foldl (λ acc kv, match acc, dec kv.2 zero with
                     | Some m0, Some v => Some (<[kv.1 := v]> m0)
                     | _, _ => None
                     end) (Some acc)
          (omap (λ k, (λ v, (k, enc v)) <$> m !! k) names)
    = Some (read_names norm m acc names)) as Hfold.
  { induction names as [|k names IH]; intros acc; [done|].
    unfold read_names. cbn [omap list_omap foldl].
    destruct (m !! k) as [v|]; cbn [fmap option_fmap option_map foldl fst snd].
    - rewrite Hdec. apply IH.
    - apply IH. }
  rewrite Hfold. do 2 f_equal. apply map_eq. intros j.
  rewrite read_names_lookup, lookup_fmap, lookup_empty.
  destruct (decide (j ∈ sorted_names m)) as [Hin|Hnin].
  - by destruct (m !! j).
  - rewrite elem_of_sorted_names in Hnin.
    destruct (m !! j) eqn:Hj; [|done]. exfalso. apply Hnin. by eexists.
Qed.

(** What is written for a map depends on the map only through what is
    written for its values. *)
Lemma encode_map_ext {V} (enc : V → json) (m m' : gmap string V) :
  (∀ k, enc <$> m !! k = enc <$> m' !! k) →
  encode_map enc (Some m) = encode_map enc (Some m').
Proof.
  intros Heq. unfold encode_map, sorted_names.
  assert (dom m = dom m') as ->.
  { apply set_eq. intros k. rewrite !elem_of_dom.
    rewrite <-(fmap_is_Some enc (m !! k)), <-(fmap_is_Some enc (m' !! k)).
    by rewrite Heq. }
  f_equal. apply list_omap_ext, Forall2_same_length_lookup. split; [done|].
  intros i k k' Hk Hk'. simplify_eq. specialize (Heq k).
  destruct (m !! k) as [v|], (m' !! k) as [v'|]; cbn in Heq |- *; try discriminate Heq;
    [|done].
  injection Heq as Heq. by rewrite Heq.
Qed.

(** A server read back from what was written for it: [Args] and [Env],
    left out when empty, come back nil. *)
Definition normal_config (c : mcpServerConfig) : mcpServerConfig :=
  {| Type_ := Type_ c;
     Command := Command c;
     Args := if is_empty_slice (Args c) then None else Args c;
     Env := if is_empty_map (Env c) then None else Env c;
     Url := Url c |}.

Lemma field_index_type : field_index mcpServerConfig_fields "type" = Some 0.
Proof. reflexivity. Qed.
Lemma field_index_command : field_index mcpServerConfig_fields "command" = Some 1.
Proof. reflexivity. Qed.
Lemma field_index_args : field_index mcpServerConfig_fields "args" = Some 2.
Proof. reflexivity. Qed.
Lemma field_index_env : field_index mcpServerConfig_fields "env" = Some 3.
Proof. reflexivity. Qed.
Lemma field_index_url : field_index mcpServerConfig_fields "url" = Some 4.
Proof. reflexivity. Qed.

Lemma decode_encode_strings (x : string) (l : list string) :
  decode_strings (encode_strings (Some (x :: l))) None = Some (Some (x :: l)).
Proof.
  unfold decode_strings, encode_strings. by rewrite decode_elems_strings.
Qed.

Lemma decode_encode_env (e : gmap string string) :
  decode_map decode_string "" (encode_map JString (Some e)) None = Some (Some e).
Proof.
  rewrite (decode_encode_map JString decode_string "" id) by done.
  by rewrite map_fmap_id.
Qed.

Ltac read_field :=
  rewrite ?field_index_type, ?field_index_command, ?field_index_args,
    ?field_index_env, ?field_index_url, ?decode_encode_strings, ?decode_encode_env;
  cbn [foldl fst snd decode_string mbind option_bind
         Type_ Command Args Env Url mcpServerConfig_zero].

Lemma decode_encode_mcpServerConfig (c : mcpServerConfig) :
  decode_mcpServerConfig (encode_mcpServerConfig c) mcpServerConfig_zero
  = Some (normal_config c).
Proof.
  destruct c as [t cmd args env url].
  unfold decode_mcpServerConfig, encode_mcpServerConfig, decode_struct, normal_config.
  cbn [Type_ Command Args Env Url].
  destruct t as [|a t], cmd as [|b cmd], args as [[|x l]|], url as [|d url],
    (is_empty_map env) eqn:Henv;
    cbn [is_empty_string is_empty_slice omitempty app];
    repeat read_field; try reflexivity;
    destruct env as [e|]; try discriminate Henv; repeat read_field; reflexivity.
Qed.

Lemma encode_normal_config (c : mcpServerConfig) :
  encode_mcpServerConfig (normal_config c) = encode_mcpServerConfig c.
Proof.
  destruct c as [t cmd args env url]. unfold encode_mcpServerConfig, normal_config.
  cbn [Type_ Command Args Env Url].
  destruct args as [[|x l]|], (is_empty_map env) eqn:Henv;
    cbn [is_empty_slice is_empty_map]; rewrite ?Henv; reflexivity.
Qed.

Lemma decode_encode_mcpJson (servers : gmap string mcpServerConfig) :
  decode_mcpJson (encode_mcpJson {| McpServers := Some servers |}) mcpJson_zero
  = Some {| McpServers := Some (normal_config <$> servers) |}.
Proof.
  unfold decode_mcpJson, encode_mcpJson, decode_struct.
  cbn [foldl fst snd McpServers mcpJson_zero].
  change (field_index ["mcpServers"] "mcpServers") with (Some 0).
  cbn [McpServers mbind option_bind].
  by rewrite (decode_encode_map _ _ _ normal_config)
    by apply decode_encode_mcpServerConfig.
Qed.

(** *** The loop over the servers of the spec *)

(** The entry written for a server of the spec, if one is written: every
    server with a type gets one, since its [Type] is then not empty. *)
Definition written_config (s : option McpServer) : option mcpServerConfig :=
  match s with
  | Some (McpServer_Http url) => Some (server_config (McpServer_Http url))
  | Some (McpServer_Stdio cmd) => Some (server_config (McpServer_Stdio cmd))
  | Some McpServer_not_set | None => None
  end.

Lemma add_server_written servers name s :
  add_server servers (name, s)
  = match written_config s with
    | Some srv => <[name := srv]> servers
    | None => servers
    end.
Proof. by destruct s as [[| |]|]. Qed.

Lemma add_servers_lookup (l : list (string * option McpServer)) : ∀ servers k,
  NoDup l.*1 →
  foldl add_server servers l !! k
  = match (list_to_map l : gmap string (option McpServer)) !! k ≫= written_config with
    | Some srv => Some srv
    | None => servers !! k
    end.
Proof.
  induction l as [|[name s] l IH]; intros servers k Hnd; [done|].
  apply NoDup_cons in Hnd as [Hname Hnd].
  cbn [foldl list_to_map foldr uncurry]. rewrite IH by done.
  rewrite add_server_written.
  destruct (decide (name = k)) as [->|Hne].
  - rewrite lookup_insert_eq.
    rewrite (not_elem_of_list_to_map_1 l k) by done. cbn.
    destruct (written_config s); [by rewrite lookup_insert_eq | done].
  - rewrite lookup_insert_ne by done.
    destruct (list_to_map l !! k ≫= written_config); [done|].
    destruct (written_config s); [by rewrite lookup_insert_ne | done].
Qed.

(** The servers of the file written by [buildMcpJSON]: a server of the
    spec that has a type, as the spec has it; under any other name, the
    server of the existing content. *)
Lemma merged_mcpJson_lookup (mcp : Mcp) (existingContent : string) (k : string) :
  servers_of (merged_mcpJson mcp existingContent) !! k
  = match mcp_servers mcp !! k ≫= written_config with
    | Some srv => Some srv
    | None => servers_of (existing_mcpJson existingContent) !! k
    end.
Proof.
  unfold merged_mcpJson. cbn [McpServers servers_of].
  rewrite add_servers_lookup by apply NoDup_fst_map_to_list.
  by rewrite list_to_map_to_list.
Qed.

(** C2 (as amended).  Materializing the MCP servers file is idempotent
    wherever the file written is not empty and is read back as the value it
    was written from: for every spec and every starting content of this
    kind, [buildMcpJSON] returns a content, and applied to that content
    with the same spec it returns the same content.  The condition is one
    on the strings of the spec and of the existing file: [encoding/json]
    writes a byte that is no UTF-8 as U+FFFD, and so does not read it
    back. *)
Theorem buildMcpJSON_idempotent (mcp : Mcp) (existingContent : string) :
  let written := encode_mcpJson (merged_mcpJson mcp existingContent) in
  json_indent written ≠ "" →
  json_parse (json_indent written) = Some written →
  ∃ content,
    buildMcpJSON (Some mcp) existingContent = Ok content
    ∧ buildMcpJSON (Some mcp) content = Ok content.
Proof using Type.
  intros written Hnonempty Hread.
  eexists. split; [reflexivity|].
  unfold buildMcpJSON. do 2 f_equal.
  set (cm1 := merged_mcpJson mcp existingContent) in *.
  assert (∃ servers1, cm1 = {| McpServers := Some servers1 |}) as [servers1 Hcm1].
  { by eexists. }
  unfold written in Hnonempty, Hread. rewrite Hcm1 in Hnonempty, Hread |- *.
  unfold encode_mcpJson at 1 3. cbn [McpServers]. do 3 f_equal.
  unfold merged_mcpJson at 1, existing_mcpJson, servers_of.
  assert (String.eqb (json_indent (encode_mcpJson {| McpServers := Some servers1 |})) ""
          = false) as Hne.
  { by apply String.eqb_neq. }
  change (JObject [("mcpServers", encode_map encode_mcpServerConfig (Some servers1))])
    with (encode_mcpJson {| McpServers := Some servers1 |}).
  rewrite Hne. cbn [negb].
  unfold Unmarshal_mcpJson. rewrite Hread. cbn [mbind option_bind].
  rewrite decode_encode_mcpJson. cbn [McpServers].
  apply encode_map_ext. intros k.
  rewrite add_servers_lookup by apply NoDup_fst_map_to_list.
  rewrite list_to_map_to_list.
  assert (servers1 !! k
          = match mcp_servers mcp !! k ≫= written_config with
            | Some srv => Some srv
            | None => servers1 !! k
            end) as Hk.
  { injection Hcm1 as <-.
    rewrite add_servers_lookup by apply NoDup_fst_map_to_list.
    rewrite list_to_map_to_list.
    by destruct (mcp_servers mcp !! k ≫= written_config). }
  destruct (mcp_servers mcp !! k ≫= written_config) as [srv|]; [by rewrite Hk|].
  rewrite lookup_fmap. destruct (servers1 !! k) as [c|]; [|done].
  cbn. by rewrite encode_normal_config.
Qed.

(** *** The entry of a stdio server *)

(** The spec of the scenario: one server, [devplan], started with
    ["devplan mcp"]. *)
Definition devplan_mcp : Mcp :=
  {| mcp_servers := {["devplan" := Some (McpServer_Stdio "devplan mcp")]} |}.

(** What the document holds for a stdio server: its type, the first field
    of the command if there is one, the other fields if there are any, and
    no [env] member, although the struct has an [Env] that is an empty map
    and not nil. *)
Lemma encode_stdio_server (cmd : string) :
  let srv := server_config (McpServer_Stdio cmd) in
  let parts := if String.eqb cmd "" then [] else Fields cmd in
  Env srv = Some ∅
  ∧ member "env" (encode_mcpServerConfig srv) = None
  ∧ member "type" (encode_mcpServerConfig srv) = Some (JString "stdio")
  ∧ member "command" (encode_mcpServerConfig srv)
    = match parts with
      | p :: _ => if is_empty_string p then None else Some (JString p)
      | [] => None
      end
  ∧ member "args" (encode_mcpServerConfig srv)
    = match parts with
      | _ :: (_ :: _) as rest => Some (JArray (JString <$> rest))
      | _ => None
      end.
Proof.
  intros srv parts. unfold srv, server_config. fold parts.
  unfold encode_mcpServerConfig. cbn [Type_ Command Args Env Url].
  destruct parts as [|p [|q rest]]; split_and!; try reflexivity;
    destruct p; reflexivity.
Qed.

(** C4, where the code departs from it.  With no existing content, or with
    one that is not JSON, the file written for the spec [devplan_mcp] has
    exactly one server, [devplan], with the type ["stdio"], the command
    ["devplan"] and the arguments [["mcp"]], and no [env] member; and no
    stdio server is ever written with an [env] member. *)
Theorem buildMcpJSON_stdio_without_env :
  let written :=
    Ok (json_indent
          (JObject
             [("mcpServers",
               JObject
                 [("devplan",
                   JObject [("type", JString "stdio");
                            ("command", JString "devplan");
                            ("args", JArray [JString "mcp"])])])])) in
  buildMcpJSON (Some devplan_mcp) "" = written
  ∧ (∀ existingContent,
       json_parse existingContent = None →
       buildMcpJSON (Some devplan_mcp) existingContent = written)
  ∧ (∀ cmd, member "env" (encode_mcpServerConfig (server_config (McpServer_Stdio cmd)))
            = None).
Proof.
  assert (∀ existingContent,
            existing_mcpJson existingContent = mcpJson_zero →
            buildMcpJSON (Some devplan_mcp) existingContent
            = Ok (json_indent
                    (JObject
                       [("mcpServers",
                         JObject
                           [("devplan",
                             JObject [("type", JString "stdio");
                                      ("command", JString "devplan");
                                      ("args", JArray [JString "mcp"])])])]))) as Hzero.
  { intros existingContent Hex. unfold buildMcpJSON, merged_mcpJson. rewrite Hex.
    unfold devplan_mcp. cbn [mcp_servers]. rewrite map_to_list_singleton.
    do 2 f_equal. }
  cbv zeta. split_and!.
  - by apply Hzero.
  - intros existingContent Hparse. apply Hzero.
    unfold existing_mcpJson, Unmarshal_mcpJson. rewrite Hparse.
    by destruct (negb (String.eqb existingContent "")).
  - intros cmd. apply encode_stdio_server.
Qed.

(** *** The prefetch processor, entry after entry *)

(** [processed_all entries w ress w']: from the world [w] the entries, none
    of them nil, are processed one after the other, each in the world the
    one before has left, and the output of each is read as the
    [PrefetchResult] at its place in [ress]; [w'] is the world after the
    last. *)
Inductive processed_all
  : list (option PrefetchEntry) → World → list PrefetchResult → World → Prop :=
| processed_all_nil w : processed_all [] w [] w
| processed_all_cons entry entries w data w1 res ress w' :
    processEntry entry w = (Ok data, w1) →
    protojson_Unmarshal data = Ok res →
    processed_all entries w1 ress w' →
    processed_all (Some entry :: entries) w (res :: ress) w'.

(** The last of [ds] that has the id [id]. *)
Fixpoint last_with_id (id : string) (ds : list FetchedData) : option FetchedData :=
  match ds with
  | [] => None
  | d :: ds' =>
      match last_with_id id ds' with
      | Some d' => Some d'
      | None => if String.eqb (data_id d) id then Some d else None
      end
  end.

Lemma Process_entries_ok entries : ∀ i result w ress w',
  processed_all entries w ress w' →
  Process_entries i entries result w = (Ok (foldl store_data result ress), w').
Proof.
  induction entries as [|entry entries IH]; intros i result w ress w' H;
    inversion H as [|? ? ? data w1 res ress' ? Hentry Hparse Hrest]; subst.
  - done.
  - cbn [Process_entries foldl]. rewrite Hentry, Hparse. by apply IH.
Qed.

Lemma store_data_lookup (ds : list FetchedData) : ∀ (result : gmap string FetchedData) id,
  foldl (λ result d, <[data_id d := d]> result) result ds !! id
  = match last_with_id id ds with
    | Some d => Some d
    | None => result !! id
    end.
Proof.
  induction ds as [|d ds IH]; intros result id; cbn [foldl last_with_id]; [done|].
  rewrite IH. destruct (last_with_id id ds); [done|].
  destruct (String.eqb_spec (data_id d) id) as [<-|Hne].
  - by rewrite lookup_insert_eq.
  - by rewrite lookup_insert_ne.
Qed.

Lemma store_all_data (ress : list PrefetchResult) : ∀ (result : gmap string FetchedData),
  foldl store_data result ress
  = foldl (λ result d, <[data_id d := d]> result) result (ress ≫= prefetch_data).
Proof.
  induction ress as [|res ress IH]; intros result; [done|].
  cbn [foldl]. rewrite IH. unfold store_data.
  change ((res :: ress) ≫= prefetch_data) with (prefetch_data res ++ (ress ≫= prefetch_data)).
  by rewrite foldl_app.
Qed.

(** When every entry is processed and its output read, [Process] returns a
    map in which an id is bound to the last datum of that id, in the order
    of the entries and, within the output of one entry, of its data; an id
    that no datum has is not bound.  Without entries the map is nil and the
    world is not touched. *)
Theorem Process_last_datum_wins (entries : list (option PrefetchEntry))
    (w w' : World) (ress : list PrefetchResult) :
  processed_all entries w ress w' →
  match entries with
  | [] => Process (Some {| prefetch_entries := entries |}) w = (Ok None, w)
  | _ :: _ =>
      ∃ m, Process (Some {| prefetch_entries := entries |}) w = (Ok (Some m), w')
           ∧ ∀ id, m !! id = last_with_id id (ress ≫= prefetch_data)
  end.
Proof.
  intros H. destruct entries as [|entry entries]; [done|].
  exists (foldl store_data ∅ ress). split.
  - unfold Process, bind. cbn [GetEntries prefetch_entries length Nat.eqb].
    by rewrite (Process_entries_ok _ 0 ∅ w ress w' H).
  - intros id. rewrite store_all_data, store_data_lookup.
    by destruct (last_with_id id _).
Qed.

Lemma Process_entries_app before : ∀ i rest result w ress w1,
  processed_all before w ress w1 →
  Process_entries i (before ++ rest) result w
  = Process_entries (i + length before) rest (foldl store_data result ress) w1.
Proof.
  induction before as [|entry before IH]; intros i rest result w ress w1 H;
    inversion H as [|? ? ? data w2 res ress' ? Hentry Hparse Hrest]; subst.
  - cbn [app length foldl]. by rewrite Nat.add_0_r.
  - cbn [app Process_entries length foldl]. rewrite Hentry, Hparse.
    rewrite (IH (S i) rest _ _ _ _ Hrest). by rewrite Nat.add_succ_comm.
Qed.

(** The first entry that is nil or cannot be processed, after entries that
    were processed and read: the error names the index of that entry,
    counted from zero, and no map comes with it. *)
Theorem Process_first_failure (before after : list (option PrefetchEntry))
    (w w1 : World) (ress : list PrefetchResult) :
  processed_all before w ress w1 →
  Process (Some {| prefetch_entries := before ++ None :: after |}) w
  = (Err ("prefetch entry at index " +:+ pretty (length before) +:+ " is nil"), w1)
  ∧ ∀ entry e w',
      processEntry entry w1 = (Err e, w') →
      Process (Some {| prefetch_entries := before ++ Some entry :: after |}) w
      = (Err ("failed to process entry at index " +:+ pretty (length before)
                +:+ ": " +:+ e), w').
Proof.
  intros H.
  assert (∀ bad, Process (Some {| prefetch_entries := before ++ bad :: after |}) w
                 = match Process_entries (length before) (bad :: after)
                           (foldl store_data ∅ ress) w1 with
                   | (Ok result, w') => (Ok (Some result), w')
                   | (Err e, w') => (Err e, w')
                   end) as Hrun.
  { intros bad. unfold Process, bind. cbn [GetEntries prefetch_entries].
    rewrite length_app. cbn [length]. rewrite Nat.add_succ_r. cbn [Nat.eqb].
    by rewrite (Process_entries_app before 0 _ ∅ w ress w1 H). }
  split.
  - by rewrite Hrun.
  - intros entry e w' Hentry. rewrite Hrun. cbn [Process_entries]. by rewrite Hentry.
Qed.

(** *** The context materializer, entry after entry *)

Definition entry_path (e : MaterializedResult_Entry) : string := file_path (entry_file e).

Lemma materializeEntry_path entry genCtx w :
  match materializeEntry entry genCtx w with
  | (Ok e, _) => entry_path e = GetPath entry ∧ GetPath entry ≠ ""
  | (Err _, _) => True
  end.
Proof.
  unfold materializeEntry. destruct (String.eqb_spec (GetPath entry) "") as [|Hne]; [done|].
  destruct (entry ≫= context_from) as [from|]; [|done].
  unfold bind, wrap. by destruct (fetchContent (Some from) genCtx w) as [[content|e] w1].
Qed.

Lemma Context_Materialize_entries_paths genCtx entries : ∀ acc w,
  match Context_Materialize_entries entries genCtx acc w with
  | (Ok out, _) =>
      ∃ new, out = acc ++ new
             ∧ entry_path <$> new = GetPath <$> entries
             ∧ Forall (λ entry, GetPath entry ≠ "") entries
  | (Err e, _) =>
      ∃ before entry after e',
        entries = before ++ entry :: after
        ∧ e = "failed to materialize entry for path " +:+ GetPath entry +:+ ": " +:+ e'
  end.
Proof.
  induction entries as [|entry entries IH]; intros acc w; cbn [Context_Materialize_entries].
  - exists []. by rewrite app_nil_r.
  - unfold bind, wrap. pose proof (materializeEntry_path entry genCtx w) as Hpath.
    destruct (materializeEntry entry genCtx w) as [[e|err] w1].
    + destruct Hpath as [Hpath Hne]. specialize (IH (acc ++ [e]) w1).
      destruct (Context_Materialize_entries entries genCtx (acc ++ [e]) w1)
        as [[out|err] w2].
      * destruct IH as (new & -> & Hpaths & Hall). exists (e :: new).
        rewrite <-app_assoc. split_and!; [done| |by constructor].
        cbn [fmap list_fmap]. by rewrite Hpath, <-Hpaths.
      * destruct IH as (before & bad & after & e' & -> & ->).
        by exists (entry :: before), bad, after, e'.
    + by exists [], entry, entries, err.
Qed.

(** What [Context.Materialize] returns.  A result has one entry for each
    entry of the context, in their order and at their paths, none of which
    is empty (so no entry of the context was nil); an error is that of one
    entry of the context, and names the path of that entry. *)
Theorem Context_Materialize_paths (contextMsg : Context)
    (genCtx : option GenerationContext) (w : World) :
  match Context_Materialize (Some contextMsg) genCtx w with
  | (Ok res, _) =>
      entry_path <$> result_entries res = GetPath <$> context_entries contextMsg
      ∧ Forall (λ entry, GetPath entry ≠ "") (context_entries contextMsg)
  | (Err e, _) =>
      ∃ before entry after e',
        context_entries contextMsg = before ++ entry :: after
        ∧ e = "failed to materialize entry for path " +:+ GetPath entry +:+ ": " +:+ e'
  end.
Proof.
  unfold Context_Materialize, bind, ret.
  pose proof (Context_Materialize_entries_paths genCtx (context_entries contextMsg) [] w) as H.
  destruct (Context_Materialize_entries _ genCtx [] w) as [[out|err] w1]; [|done].
  destruct H as (new & -> & Hpaths & Hall). done.
Qed.

(** *** From the prefetch step to the context *)

(** A context entry at [ref.1] whose source is the prefetched datum of the
    id [ref.2]. *)
Definition prefetched_entry (ref : string * string) : option ContextEntry :=
  Some {| context_path := ref.1; context_from := Some (ContextFrom_PrefetchId ref.2) |}.

Lemma materializeEntry_prefetched (ref : string * string)
    (genCtx : option GenerationContext) (w : World) :
  ref.1 ≠ "" →
  materializeEntry (prefetched_entry ref) genCtx w
  = match GetPrefetched genCtx !! ref.2 with
    | Some d => (Ok (file_entry ref.1 (data_data d)), w)
    | None =>
        (Err ("failed to fetch content: prefetch id [" +:+ ref.2 +:+ "] not found"), w)
    end.
Proof.
  intros Hne. unfold materializeEntry, prefetched_entry.
  cbn [GetPath context_path mbind option_bind context_from].
  destruct (String.eqb_spec ref.1 "") as [|_]; [done|].
  unfold bind, wrap, fetchContent, prefetch_lookup.
  by destruct (GetPrefetched genCtx !! ref.2).
Qed.

Lemma Context_Materialize_entries_prefetched genCtx (data : list FetchedData) :
  (∀ id, GetPrefetched genCtx !! id = last_with_id id data) →
  ∀ refs ds rest acc w,
    Forall (λ ref : string * string, ref.1 ≠ "") refs →
    Forall2 (λ ref d, last_with_id ref.2 data = Some d) refs ds →
    Context_Materialize_entries ((prefetched_entry <$> refs) ++ rest) genCtx acc w
    = Context_Materialize_entries rest genCtx
        (acc ++ zip_with (λ ref d, file_entry ref.1 (data_data d)) refs ds) w.
Proof.
  intros Hmap refs ds rest acc w Hne Hfound. revert acc.
  induction Hfound as [|ref d refs ds Hd Hfound IH]; intros acc.
  - by rewrite app_nil_r.
  - apply Forall_cons in Hne as [Hne1 Hne].
    cbn [fmap list_fmap app Context_Materialize_entries]. unfold bind, wrap.
    rewrite materializeEntry_prefetched, Hmap, Hd by done.
    fold (fmap (M:=list) prefetched_entry refs).
    rewrite (IH Hne). cbn [zip_with]. by rewrite <-app_assoc.
Qed.

(** The map of a prefetch step that went through, as [GetPrefetched] gives
    it to the context. *)
Lemma Process_prefetched (entries : list (option PrefetchEntry)) (w w' : World)
    (ress : list PrefetchResult) :
  processed_all entries w ress w' →
  ∃ pm, Process (Some {| prefetch_entries := entries |}) w = (Ok pm, w')
        ∧ ∀ id, GetPrefetched (Some {| Prefetched := pm |}) !! id
                = last_with_id id (ress ≫= prefetch_data).
Proof.
  intros Hall. destruct entries as [|entry entries].
  - inversion Hall; subst. exists None. split; [done|]. intros id.
    cbn [GetPrefetched Prefetched default]. by rewrite lookup_empty.
  - exists (Some (foldl store_data ∅ ress)). split.
    + unfold Process, bind. cbn [GetEntries prefetch_entries length Nat.eqb].
      by rewrite (Process_entries_ok _ 0 ∅ w ress w' Hall).
    + intros id.
      change (foldl store_data ∅ ress !! id = last_with_id id (ress ≫= prefetch_data)).
      rewrite store_all_data, store_data_lookup. by destruct (last_with_id id _).
Qed.

(** A recipe with a prefetch section and a context whose entries all name
    prefetched ids, and no IDE section.  When the prefetch entries are
    processed and read, and every id named is that of some datum, the
    result has one file for each entry of the context, at its path, with
    the text of the last datum of its id.  When the first id that no datum
    has is named by the entry at [path], the error names [path] and that
    id.  The IDE provider has no part in it. *)
Theorem Recipe_Materialize_prefetched (IDE : IDEProvider)
    (entries : list (option PrefetchEntry)) (w w' : World) (ress : list PrefetchResult)
    (refs : list (string * string)) :
  processed_all entries w ress w' →
  Forall (λ ref : string * string, ref.1 ≠ "") refs →
  let recipe refs :=
    {| recipe_context := Some {| context_entries := prefetched_entry <$> refs |};
       recipe_ide := None;
       recipe_prefetch := Some {| prefetch_entries := entries |} |} in
  let data := ress ≫= prefetch_data in
  (∀ ds,
     Forall2 (λ ref d, last_with_id ref.2 data = Some d) refs ds →
     Recipe_Materialize IDE (Some (recipe refs)) w
     = (Ok {| result_entries := zip_with (λ ref d, file_entry ref.1 (data_data d)) refs ds |},
        w'))
  ∧ (∀ ds path id rest,
       Forall2 (λ ref d, last_with_id ref.2 data = Some d) refs ds →
       path ≠ "" →
       last_with_id id data = None →
       Recipe_Materialize IDE (Some (recipe (refs ++ (path, id) :: rest))) w
       = (Err ("failed to materialize context: failed to materialize entry for path "
                 +:+ path +:+ ": failed to fetch content: prefetch id ["
                 +:+ id +:+ "] not found"), w')).
Proof.
  intros Hall Hne recipe data.
  destruct (Process_prefetched entries w w' ress Hall) as (pm & Hpm & Hmap).
  split.
  - intros ds Hfound. unfold Recipe_Materialize, bind, wrap, ret.
    cbn [recipe recipe_prefetch recipe_context recipe_ide]. rewrite Hpm.
    unfold Context_Materialize, bind, ret. cbn [context_entries].
    rewrite <-(app_nil_r (prefetched_entry <$> refs)).
    by rewrite (Context_Materialize_entries_prefetched _ data Hmap refs ds [] [] w' Hne Hfound).
  - intros ds path id rest Hfound Hpath Hmissing.
    unfold Recipe_Materialize, bind, wrap, ret.
    cbn [recipe recipe_prefetch recipe_context recipe_ide]. rewrite Hpm.
    unfold Context_Materialize, bind, ret. cbn [context_entries].
    rewrite fmap_app.
    rewrite (Context_Materialize_entries_prefetched _ data Hmap refs ds _ [] w' Hne Hfound).
    cbn [fmap list_fmap Context_Materialize_entries]. unfold bind, wrap.
    rewrite (materializeEntry_prefetched (path, id)) by done.
    rewrite Hmap. cbn [snd fst]. fold data. rewrite Hmissing.
    cbn [GetPath prefetched_entry context_path fst].
    by rewrite !append_assoc.
Qed.

(** *** The shared IDE plugin, for any folders and settings *)

(** The path of the file of a command. *)
Definition command_path (i : IDE) (c : option adcp.Command) : string :=
  CommandsFolder i +:+ "/" +:+ GetName c +:+ ".md".

(** [commands_fetched cmds w contents w']: from the world [w] the commands,
    each with a name and a source, have their contents fetched one after
    the other, each in the world the one before has left; [w'] is the world
    after the last. *)
Inductive commands_fetched
  : list (option adcp.Command) → World → list string → World → Prop :=
| commands_fetched_nil w : commands_fetched [] w [] w
| commands_fetched_cons c cmds w from content w1 contents w' :
    GetName c ≠ "" →
    c ≫= command_from = Some from →
    fetchCommandContent (Some from) w = (Ok content, w1) →
    commands_fetched cmds w1 contents w' →
    commands_fetched (c :: cmds) w (content :: contents) w'.

(** [command_fails c w e w']: in the world [w] the command [c] ends the
    loop with the error [e], in the world [w']: it has no name, or no
    source, or its source cannot be fetched. *)
Definition command_fails (c : option adcp.Command) (w : World) (e : string) (w' : World)
  : Prop :=
  (GetName c = "" ∧ e = "command name cannot be empty" ∧ w' = w)
  ∨ (GetName c ≠ "" ∧ c ≫= command_from = None
     ∧ e = "command " +:+ GetName c +:+ " must have a 'from' source" ∧ w' = w)
  ∨ (∃ from e',
       GetName c ≠ "" ∧ c ≫= command_from = Some from
       ∧ fetchCommandContent (Some from) w = (Err e', w')
       ∧ e = "failed to materialize command " +:+ GetName c +:+ ": " +:+ e').

Lemma commands_fetched_names cmds w contents w' :
  commands_fetched cmds w contents w' → Forall (λ c, GetName c ≠ "") cmds.
Proof. induction 1; by constructor. Qed.

Lemma materializeCommands_entries_outcome (i : IDE) cmds : ∀ entries w,
  match materializeCommands_entries i cmds entries w with
  | (Ok out, w') =>
      ∃ contents,
        commands_fetched cmds w contents w'
        ∧ out = entries ++ zip_with (λ c content, file_entry (command_path i c) content)
                             cmds contents
  | (Err e, w') =>
      ∃ before c after contents w1,
        cmds = before ++ c :: after
        ∧ commands_fetched before w contents w1
        ∧ command_fails c w1 e w'
  end.
Proof.
  induction cmds as [|c cmds IH]; intros entries w; cbn [materializeCommands_entries].
  - exists []. split; [constructor|]. by rewrite app_nil_r.
  - destruct (String.eqb_spec (GetName c) "") as [Hname|Hname].
    { exists [], c, cmds, [], w. split_and!; [done|constructor|]. by left. }
    destruct (c ≫= command_from) as [from|] eqn:Hfrom; cycle 1.
    { exists [], c, cmds, [], w. split_and!; [done|constructor|]. right. by left. }
    unfold bind, wrap.
    destruct (fetchCommandContent (Some from) w) as [[content|err] w1] eqn:Hfetch; cycle 1.
    { exists [], c, cmds, [], w. split_and!; [done|constructor|].
      right. right. by exists from, err. }
    specialize (IH (entries ++ [file_entry (CommandsFolder i +:+ "/" +:+ GetName c +:+ ".md")
                                  content]) w1).
    destruct (materializeCommands_entries i cmds _ w1) as [[out|err] w2].
    + destruct IH as (contents & Hfetched & ->). exists (content :: contents).
      split; [by econstructor|]. by rewrite <-app_assoc.
    + destruct IH as (before & bad & after & contents & w3 & -> & Hbefore & Hbad).
      exists (c :: before), bad, after, (content :: contents), w3.
      split_and!; [done|by econstructor|done].
Qed.

Lemma zip_with_command_paths (i : IDE) cmds : ∀ contents w w',
  commands_fetched cmds w contents w' →
  entry_path <$> zip_with (λ c content, file_entry (command_path i c) content) cmds contents
  = command_path i <$> cmds.
Proof.
  induction cmds as [|c cmds IH]; intros contents w w' H;
    inversion H as [|? ? ? from content w1 contents' ? Hname Hfrom Hfetch Hrest]; subst.
  - done.
  - cbn [zip_with fmap list_fmap]. f_equal. by eapply IH.
Qed.

(** What [materializeCommands] returns.  A result means that every command
    has a name and a source and that the contents were fetched one after
    the other; it has one file for each command, in their order, at
    [<CommandsFolder>/<name>.md] and with the content fetched for it, and
    the names of the commands, in that order, are the command names that
    [IDE.Materialize] hands to the settings.  An error is that of the first
    command that has no name, has no source or whose source cannot be
    fetched, after the contents of all the commands before it were
    fetched; but for the missing name it carries the name of that
    command. *)
Theorem materializeCommands_paths (i : IDE) (commands : Commands) (w : World) :
  let cmds := commands_entries commands in
  match materializeCommands i (Some commands) w with
  | (Ok out, w') =>
      ∃ contents,
        commands_fetched cmds w contents w'
        ∧ out = zip_with (λ c content, file_entry (command_path i c) content) cmds contents
        ∧ entry_path <$> out = command_path i <$> cmds
        ∧ Forall (λ c, GetName c ≠ "") cmds
        ∧ ∀ ide, ide_commands ide = Some commands → command_names ide = GetName <$> cmds
  | (Err e, w') =>
      ∃ before c after contents w1,
        cmds = before ++ c :: after
        ∧ commands_fetched before w contents w1
        ∧ command_fails c w1 e w'
  end.
Proof.
  intros cmds. unfold materializeCommands. fold cmds.
  pose proof (materializeCommands_entries_outcome i cmds [] w) as H.
  destruct (materializeCommands_entries i cmds [] w) as [[out|err] w1]; [|done].
  destruct H as (contents & Hfetched & ->). exists contents.
  pose proof (commands_fetched_names _ _ _ _ Hfetched) as Hall.
  split_and!; [done|done|by eapply zip_with_command_paths|done|].
  intros ide Hide. unfold command_names. rewrite Hide. fold cmds.
  clear Hfetched Hide. induction Hall as [|c l Hc Hall IH]; [done|].
  cbn [omap list_omap fmap list_fmap]. destruct c as [c|]; [|done].
  cbn [GetName] in Hc |- *. destruct (String.eqb_spec (command_name c) ""); [done|].
  by rewrite IH.
Qed.

(** [materializeMcp] does not fail and leaves the world as it is: it gives
    no entry, or the one entry of the servers file, at the path of the
    IDE. *)
Theorem materializeMcp_at_most_one (i : IDE) (mcp : option Mcp) (w : World) :
  ∃ es, materializeMcp i mcp w = (Ok es, w)
        ∧ (length es ≤ 1)%nat
        ∧ Forall (λ e, entry_path e = MCPServersJSONPath i) es
        ∧ (es = [] ↔ mcp = None ∨ MCPServersJSONPath i = "").
Proof using ReadFile json_parse json_indent.
  unfold materializeMcp. destruct mcp as [mcp|].
  - destruct (String.eqb_spec (MCPServersJSONPath i) "") as [Hpath|Hpath].
    + exists []. split_and!; [done|cbn; lia|done|]. split; [by right|done].
    + eexists [_]. cbn [buildMcpJSON]. split_and!; [done|done|by repeat constructor|].
      split; [done|]. by intros [?|?].
  - exists []. split_and!; [done|cbn; lia|done|]. split; [by left|done].
Qed.

(** *** The Cursor plugin: [adcp/core/plugins/cursorcli/ide.go] *)

(** [settings.Update], which returns [nil, nil]. *)
Definition cursorcli_settings : IDESettings := {| Update := λ _, ret [] |}.

(** [cursorcli.NewIDEProvider()]. *)
Definition cursorcli_IDE : IDE :=
  {| CommandsFolder := ".cursor/commands";
     MCPServersJSONPath := ".cursor/mcp.json";
     Settings := Some cursorcli_settings |}.

(** The Cursor provider.  Its result is the files of the commands followed,
    when the section has servers, by the one file [.cursor/mcp.json], the
    servers merged into what that file holds; it fails only where the
    commands do.  The permissions of the section change nothing. *)
Theorem IDE_Materialize_cursorcli (ide : Ide) (w : World) :
  IDE_Materialize cursorcli_IDE (Some ide) w
  = match materializeCommands cursorcli_IDE (ide_commands ide) w with
    | (Ok cmdEntries, w1) =>
        (Ok {| result_entries :=
                 cmdEntries
                 ++ match ide_mcp ide with
                    | Some mcp =>
                        [file_entry ".cursor/mcp.json"
                           (json_indent
                              (encode_mcpJson
                                 (merged_mcpJson mcp
                                    (default "" (ReadFile ".cursor/mcp.json" w1)))))]
                    | None => []
                    end |}, w1)
    | (Err e, w1) => (Err e, w1)
    end
  ∧ ∀ perms,
      IDE_Materialize cursorcli_IDE
        (Some {| ide_commands := ide_commands ide; ide_permissions := perms;
                 ide_mcp := ide_mcp ide |}) w
      = IDE_Materialize cursorcli_IDE (Some ide) w.
Proof.
  split; [|done].
  unfold IDE_Materialize, bind, ret.
  destruct (ide_commands ide) as [commands|].
  - destruct (materializeCommands cursorcli_IDE (Some commands) w) as [[cmdEntries|e] w1];
      [|done].
    cbn [cursorcli_IDE Settings Update cursorcli_settings ret app].
    rewrite app_nil_r. by destruct (ide_mcp ide).
  - cbn [materializeCommands ret cursorcli_IDE Settings Update cursorcli_settings app].
    by destruct (ide_mcp ide).
Qed.

(** *** What the servers file keeps and what it replaces *)

(** The servers of the file [buildMcpJSON] writes.  A server of the spec
    that has a type is written as the spec has it, whatever the existing
    content says under its name; under a name for which the spec has no
    server, or one that is nil or has no type, the server of the existing
    content stays, so no server of the existing content is lost; and an
    existing content that is empty or cannot be read counts as one without
    servers. *)
Theorem buildMcpJSON_keeps_and_replaces (mcp : Mcp) (existingContent : string) :
  let written := servers_of (merged_mcpJson mcp existingContent) in
  let old := servers_of (existing_mcpJson existingContent) in
  buildMcpJSON (Some mcp) existingContent
  = Ok (json_indent (encode_mcpJson {| McpServers := Some written |}))
  ∧ (∀ k s, mcp_servers mcp !! k = Some (Some s) → s ≠ McpServer_not_set →
            written !! k = Some (server_config s))
  ∧ (∀ k, mcp_servers mcp !! k = None ∨ mcp_servers mcp !! k = Some None
          ∨ mcp_servers mcp !! k = Some (Some McpServer_not_set) →
          written !! k = old !! k)
  ∧ dom old ⊆ dom written
  ∧ (existingContent = "" ∨ Unmarshal_mcpJson existingContent mcpJson_zero = None →
     old = ∅).
Proof.
  intros written old. split_and!.
  - done.
  - intros k s Hk Hs. unfold written. rewrite merged_mcpJson_lookup, Hk.
    by destruct s.
  - intros k Hk. unfold written. rewrite merged_mcpJson_lookup.
    by destruct Hk as [-> | [-> | ->]].
  - intros k. rewrite !elem_of_dom. unfold written. rewrite merged_mcpJson_lookup.
    intros Hold. by destruct (mcp_servers mcp !! k ≫= written_config).
  - unfold old, existing_mcpJson. intros [-> | ->]; [done|].
    by destruct (negb (String.eqb existingContent "")).
Qed.

(** *** The lists of the Claude settings *)

Lemma elem_of_mergeUniqueStrings (existing new : list string) (s : string) :
  s ∈ claude.mergeUniqueStrings existing new ↔ s ∈ existing ∨ s ∈ new.
Proof using Type.
  rewrite mergeUniqueStrings_first_occurrences.
  rewrite elem_of_app, list_elem_of_filter, !elem_of_first_occurrences.
  destruct (decide (s ∈ existing)) as [Hin|Hnin].
  - split; intros _; by left.
  - split; [intros [?|[_ ?]]; [by left|by right] | intros [?|?]; [by left|right; by split]].
Qed.

Lemma elem_of_new_permissions (ps : list OperationPermission) (x : string) :
  x ∈ new_permissions ps
  ↔ ∃ p, p ∈ ps ∧ HasType p = true ∧ x = formatPermission p.
Proof using Type.
  unfold new_permissions. rewrite list_elem_of_fmap. split.
  - intros (p & -> & [Htype Hp]%list_elem_of_filter). by exists p.
  - intros (p & Hp & Htype & ->). exists p. split; [done|].
    by apply list_elem_of_filter.
Qed.

Lemma elem_of_command_permissions (commandNames : list string) (x : string) :
  x ∈ (λ name, "SlashCommand(/" +:+ name +:+ ")") <$> filter (λ name, name ≠ "") commandNames
  ↔ ∃ name, name ∈ commandNames ∧ name ≠ "" ∧ x = "SlashCommand(/" +:+ name +:+ ")".
Proof using Type.
  rewrite list_elem_of_fmap. split.
  - intros (name & -> & [Hne Hname]%list_elem_of_filter). by exists name.
  - intros (name & Hname & Hne & ->). exists name. split; [done|].
    by apply list_elem_of_filter.
Qed.

Lemma elem_of_server_permissions (mcpServerNames : list string) (x : string) :
  x ∈ (λ serverName, "mcp__" +:+ serverName) <$> mcpServerNames
  ↔ ∃ name, name ∈ mcpServerNames ∧ x = "mcp__" +:+ name.
Proof using Type.
  rewrite list_elem_of_fmap. split.
  - intros (name & -> & Hname). by exists name.
  - intros (name & Hname & ->). by exists name.
Qed.

Lemma elems_non_nil (l : option (list string)) : elems (non_nil l) = elems l.
Proof using Type. by destruct l. Qed.

Lemma NoDup_mergeUniqueStrings (existing new : list string) :
  NoDup (claude.mergeUniqueStrings existing new).
Proof.
  rewrite mergeUniqueStrings_first_occurrences. apply NoDup_app. split_and!.
  - apply NoDup_first_occurrences.
  - intros s Hs (Hn & _)%list_elem_of_filter. by apply Hn, elem_of_first_occurrences.
  - apply NoDup_filter, NoDup_first_occurrences.
Qed.

(** The settings read from the existing content: the zero struct when
    there is no content or when it cannot be read. *)
Definition existing_claudeSettings (existingContent : string) : claudeSettings :=
  if negb (String.eqb existingContent "") then
    match Unmarshal_claudeSettings existingContent claudeSettings_zero with
    | Some s => s
    | None => claudeSettings_zero
    end
  else claudeSettings_zero.

(** The [allow] and [deny] lists of a set of permissions, none for nil. *)
Definition allow_of (perms : option Permissions) : list OperationPermission :=
  match perms with Some perms => permissions_allow perms | None => [] end.

Definition deny_of (perms : option Permissions) : list OperationPermission :=
  match perms with Some perms => permissions_deny perms | None => [] end.

(** The lists of the settings written.  Each of [allow], [deny] and
    [enabledMcpjsonServers] holds no string twice.  [allow] holds what the
    existing file allows, the permissions of the spec that have a type,
    [mcp__<name>] for every server name and [SlashCommand(/<name>)] for
    every command name that is not empty, and nothing else; [deny] holds
    what the existing file denies and the denied permissions of the spec
    that have a type; [enabledMcpjsonServers] holds the servers the
    existing file enables and the server names; [ask] is that of the
    existing file.  Nothing the existing file lists is dropped. *)
Theorem merged_claudeSettings_lists (perms : option Permissions)
    (mcpServerNames commandNames : list string) (existingContent : string) :
  let s := merged_claudeSettings perms mcpServerNames commandNames existingContent in
  let old := existing_claudeSettings existingContent in
  ∃ allow deny enabled,
    Allow (Permissions_ s) = Some allow
    ∧ Deny (Permissions_ s) = Some deny
    ∧ EnabledMcpjsonServers s = Some enabled
    ∧ Ask (Permissions_ s) = non_nil (Ask (Permissions_ old))
    ∧ NoDup allow ∧ NoDup deny ∧ NoDup enabled
    ∧ (∀ x, x ∈ allow ↔
            x ∈ elems (Allow (Permissions_ old))
            ∨ (∃ p, p ∈ allow_of perms ∧ HasType p = true ∧ x = formatPermission p)
            ∨ (∃ name, name ∈ mcpServerNames ∧ x = "mcp__" +:+ name)
            ∨ (∃ name, name ∈ commandNames ∧ name ≠ ""
                       ∧ x = "SlashCommand(/" +:+ name +:+ ")"))
    ∧ (∀ x, x ∈ deny ↔
            x ∈ elems (Deny (Permissions_ old))
            ∨ (∃ p, p ∈ deny_of perms ∧ HasType p = true ∧ x = formatPermission p))
    ∧ (∀ x, x ∈ enabled ↔
            x ∈ elems (EnabledMcpjsonServers old) ∨ x ∈ mcpServerNames).
Proof using json_parse.
  intros s old. eexists _, _, _. split_and!; try reflexivity.
  - apply NoDup_mergeUniqueStrings.
  - apply NoDup_mergeUniqueStrings.
  - apply NoDup_mergeUniqueStrings.
  - intros x. rewrite elem_of_mergeUniqueStrings, elems_non_nil.
    fold (existing_claudeSettings existingContent). fold old.
    rewrite !elem_of_app, elem_of_server_permissions, elem_of_command_permissions.
    assert (x ∈ match perms with
                | Some perms0 => new_permissions (permissions_allow perms0)
                | None => []
                end
            ↔ ∃ p, p ∈ allow_of perms ∧ HasType p = true ∧ x = formatPermission p) as ->.
    { destruct perms as [perms|]; cbn [allow_of]; [apply elem_of_new_permissions|].
      split; [by intros ?%elem_of_nil|]. by intros (p & ?%elem_of_nil & _). }
    split.
    + intros [?|[[?|?]|?]]; [by left | right; by left | right; right; by left
                            | right; right; by right].
    + intros [?|[?|[?|?]]]; [by left | right; left; by left | right; left; by right
                            | right; by right].
  - intros x. rewrite elem_of_mergeUniqueStrings, elems_non_nil.
    fold (existing_claudeSettings existingContent). fold old.
    assert (x ∈ match perms with
                | Some perms0 => new_permissions (permissions_deny perms0)
                | None => []
                end
            ↔ ∃ p, p ∈ deny_of perms ∧ HasType p = true ∧ x = formatPermission p) as ->.
    { destruct perms as [perms|]; cbn [deny_of]; [apply elem_of_new_permissions|].
      split; [by intros ?%elem_of_nil|]. by intros (p & ?%elem_of_nil & _). }
    done.
  - intros x. by rewrite elem_of_mergeUniqueStrings, elems_non_nil.
Qed.

(** *** Writing the settings again

    As for the servers file, the text written for a [claudeSettings] is
    assumed to be read back as the value it was written from. *)

Hypothesis json_parse_indent_settings :
  ∀ s, json_parse (json_indent (encode_claudeSettings s)) = Some (encode_claudeSettings s).














(** *** The orchestrator, when a step fails *)

(** The three steps of [Recipe.Materialize] run in the order prefetch,
    context, IDE, and the first that fails ends the run: its error comes
    back under the prefix of the step, in the world that step has left, and
    no later step is run.  A failure of the prefetch or of the context does
    not depend on the IDE provider. *)
Theorem Recipe_Materialize_first_failure (IDE : IDEProvider) (recipe : Recipe)
    (w : World) :
  (∀ pf e w1,
     recipe_prefetch recipe = Some pf →
     Process (Some pf) w = (Err e, w1) →
     Recipe_Materialize IDE (Some recipe) w
     = (Err ("failed to process prefetch: " +:+ e), w1))
  ∧ (∀ prefetched w1 context e w2,
       match recipe_prefetch recipe with
       | Some pf => Process (Some pf) w = (Ok prefetched, w1)
       | None => prefetched = None ∧ w1 = w
       end →
       recipe_context recipe = Some context →
       Context_Materialize (Some context) (Some {| Prefetched := prefetched |}) w1
       = (Err e, w2) →
       Recipe_Materialize IDE (Some recipe) w
       = (Err ("failed to materialize context: " +:+ e), w2))
  ∧ (∀ prefetched w1 contextEntries w2 ide e w3,
       match recipe_prefetch recipe with
       | Some pf => Process (Some pf) w = (Ok prefetched, w1)
       | None => prefetched = None ∧ w1 = w
       end →
       match recipe_context recipe with
       | Some context =>
           Context_Materialize (Some context) (Some {| Prefetched := prefetched |}) w1
           = (Ok {| result_entries := contextEntries |}, w2)
       | None => contextEntries = [] ∧ w2 = w1
       end →
       recipe_ide recipe = Some ide →
       IDEProvider_Materialize IDE (Some ide) w2 = (Err e, w3) →
       Recipe_Materialize IDE (Some recipe) w
       = (Err ("failed to materialize IDE configuration: " +:+ e), w3)).
Proof.
  split_and!.
  - intros pf e w1 Hpf Hfail. unfold Recipe_Materialize, bind, wrap, ret.
    by rewrite Hpf, Hfail.
  - intros prefetched w1 context e w2 Hpf Hctx Hfail.
    unfold Recipe_Materialize, bind, wrap, ret. rewrite Hctx.
    destruct (recipe_prefetch recipe) as [pf|].
    + by rewrite Hpf, Hfail.
    + destruct Hpf as [-> ->]. by rewrite Hfail.
  - intros prefetched w1 contextEntries w2 ide e w3 Hpf Hctx Hide Hfail.
    unfold Recipe_Materialize, bind, wrap, ret. rewrite Hide.
    destruct (recipe_prefetch recipe) as [pf|].
    + rewrite Hpf. destruct (recipe_context recipe) as [context|].
      * by rewrite Hctx, Hfail.
      * destruct Hctx as [-> ->]. by rewrite Hfail.
    + destruct Hpf as [-> ->]. destruct (recipe_context recipe) as [context|].
      * by rewrite Hctx, Hfail.
      * destruct Hctx as [-> ->]. by rewrite Hfail.
Qed.

(** *** The executable recipe: [adcp/core/executable] *)

(** [strings.ToLower], which follows the Unicode tables. *)
Variable ToLower : string → string.

(** [adcp.EntryPoint] and [adcp.ExecutableRecipe], as far as they are read. *)
Record EntryPoint : Type := { entry_ide_type : string }.

Record ExecutableRecipe : Type := {
  exec_entry_point : option EntryPoint;
  exec_recipe : option Recipe;
}.

(** [r.GetEntryPoint().GetIdeType()] and [r.GetRecipe()], nil-safe. *)
Definition GetIdeType (r : option ExecutableRecipe) : string :=
  match r ≫= exec_entry_point with Some e => entry_ide_type e | None => "" end.

Definition GetRecipe (r : option ExecutableRecipe) : option Recipe := r ≫= exec_recipe.

(** [getIDE]. *)
Definition getIDE (ideType : string) : result IDE :=
  let lower := ToLower ideType in
  if String.eqb lower "claude" then Ok claude_IDE
  else if String.eqb lower "cursor-cli" then Ok cursorcli_IDE
  else Err ("unsupported IDE type: " +:+ ideType).

(** [Recipe.Materialize] of the package [executable], on the recipe that
    [ForRecipe] has wrapped. *)
Definition executable_Recipe_Materialize (r : option ExecutableRecipe)
  : M MaterializedResult :=
  let ideType := GetIdeType r in
  match getIDE ideType with
  | Err e => fail ("failed to get IDE: " +:+ e)
  | Ok ide => Recipe_Materialize (IDE_provider ide) (GetRecipe r)
  end.

(** A [Recipe.Materialize] without an IDE section does not call the IDE
    provider. *)
Lemma Recipe_Materialize_without_ide (IDE IDE' : IDEProvider) (recipe : option Recipe)
    (w : World) :
  recipe ≫= recipe_ide = None →
  Recipe_Materialize IDE recipe w = Recipe_Materialize IDE' recipe w.
Proof.
  destruct recipe as [recipe|]; [|done]. cbn [mbind option_bind]. intros Hide.
  unfold Recipe_Materialize. by rewrite Hide.
Qed.

(** The executable recipe.  An IDE type that does not lower to [claude] or
    [cursor-cli] fails before anything is run, with an error that carries
    the type as it was given, also when there is no recipe; with a type
    that does, a missing recipe is the error of the orchestrator, a recipe
    without sections gives a result without entries, and a recipe without
    an IDE section gives the same outcome for either type. *)
Theorem executable_Recipe_Materialize_ide_type (r : option ExecutableRecipe) (w : World) :
  let lower := ToLower (GetIdeType r) in
  (lower ≠ "claude" → lower ≠ "cursor-cli" →
   executable_Recipe_Materialize r w
   = (Err ("failed to get IDE: unsupported IDE type: " +:+ GetIdeType r), w))
  ∧ (lower = "claude" ∨ lower = "cursor-cli" →
     (GetRecipe r = None →
      executable_Recipe_Materialize r w = (Err "recipe cannot be nil", w))
     ∧ (GetRecipe r = Some {| recipe_context := None; recipe_ide := None;
                              recipe_prefetch := None |} →
        executable_Recipe_Materialize r w = (Ok {| result_entries := [] |}, w))
     ∧ (GetRecipe r ≫= recipe_ide = None →
        executable_Recipe_Materialize r w
        = Recipe_Materialize (IDE_provider claude_IDE) (GetRecipe r) w
        ∧ executable_Recipe_Materialize r w
          = Recipe_Materialize (IDE_provider cursorcli_IDE) (GetRecipe r) w)).
Proof.
  intros lower. unfold executable_Recipe_Materialize, getIDE. fold lower. split.
  - intros Hclaude Hcursor.
    destruct (String.eqb_spec lower "claude") as [|_]; [done|].
    destruct (String.eqb_spec lower "cursor-cli") as [|_]; [done|].
    reflexivity.
  - intros Hlower.
    assert (∃ ide, (if String.eqb lower "claude" then Ok claude_IDE
                    else if String.eqb lower "cursor-cli" then Ok cursorcli_IDE
                    else Err ("unsupported IDE type: " +:+ GetIdeType r)) = Ok ide
                   ∧ (ide = claude_IDE ∨ ide = cursorcli_IDE)) as (ide & -> & Hide).
    { destruct Hlower as [-> | ->]; [exists claude_IDE | exists cursorcli_IDE];
        (split; [done|]); [by left | by right]. }
    split_and!.
    + by intros ->.
    + by intros ->.
    + intros Hnone. split; by apply Recipe_Materialize_without_ide.
Qed.

(** *** Fetching from GitHub *)

(** [FetchGithub] returns a content only as the body, read to its end, of
    a response with status 200 to the one request it makes, which is for
    the raw URL of the reference; the path of the reference is then not
    empty. *)
Theorem FetchGithub_ok_iff (ref : GitReference) (w w' : World) (content : string) :
  FetchGithub (Some ref) w = (Ok content, w')
  ↔ ref_path ref ≠ ""
    ∧ ∃ url, ConvertToRawURL (ref_path ref) (ref_version ref) = Ok url
             ∧ http_get url w = (http_response 200 (Ok content), w').
Proof using Type.
  unfold FetchGithub, fail.
  destruct (String.eqb_spec (ref_path ref) "") as [Hpath|Hpath].
  { split; [done|]. by intros [? _]. }
  destruct (ConvertToRawURL (ref_path ref) (ref_version ref)) as [url|e].
  - destruct (http_get url w) as [[err|err|status body] w1] eqn:Hget.
    + split; [done|]. intros (_ & url' & [= <-] & Hget'). congruence.
    + split; [done|]. intros (_ & url' & [= <-] & Hget'). congruence.
    + destruct (Nat.eqb_spec status 200) as [->|Hstatus]; cbn [negb].
      * destruct body as [body|err].
        -- split.
           ++ intros [= <- <-]. split; [done|]. by exists url.
           ++ intros (_ & url' & [= <-] & Hget'). congruence.
        -- split; [done|]. intros (_ & url' & [= <-] & Hget'). congruence.
      * split; [done|]. intros (_ & url' & [= <-] & Hget'). congruence.
  - split; [done|]. by intros (_ & url' & ? & _).
Qed.

(** *** The text of a permission *)

Lemma append_char_inj (a b : string) (c : ascii) :
  a +:+ String c "" = b +:+ String c "" → a = b.
Proof using Type.
  revert b. induction a as [|x a IH]; intros [|y b] H.
  - done.
  - rewrite append_cons in H. injection H as _ H. by destruct b.
  - rewrite append_cons in H. injection H as _ H. by destruct a.
  - rewrite !append_cons in H. injection H as -> H. f_equal. by apply IH.
Qed.

(** Two permissions that have a type are written as the same text only
    when they are the same permission, and the text is empty only for a
    permission without a type: the merge of the lists, which compares
    texts, never takes two permissions for one. *)
Theorem formatPermission_inj (p q : OperationPermission) :
  (HasType p = true → HasType q = true →
   formatPermission p = formatPermission q → p = q)
  ∧ (formatPermission p = "" ↔ HasType p = false).
Proof using Type.
  split.
  - destruct p as [|a|a|a], q as [|b|b|b]; cbn [HasType formatPermission];
      intros _ _ H; try done; try discriminate H;
      repeat (rewrite !append_cons in H; injection H as H);
      change (String.append "" ?x) with x in H;
      apply append_char_inj in H; by subst.
  - by destruct p.
Qed.

(** *** The servers the Claude settings enable *)

Lemma elem_of_server_names (ide : Ide) (mcp : Mcp) (name : string) :
  ide_mcp ide = Some mcp →
  name ∈ server_names ide ↔ is_Some (mcp_servers mcp !! name).
Proof using Type.
  intros Hmcp. unfold server_names. rewrite Hmcp, list_elem_of_fmap. split.
  - intros ([k s] & -> & Hks%elem_of_map_to_list). by exists s.
  - intros [s Hs]. exists (name, s). split; [done|]. by apply elem_of_map_to_list.
Qed.

(** Every name under which the Ide section has a server, also a server
    that is nil or has no type and so gets no entry of its own in the
    servers file, is enabled in the Claude settings written and allowed
    there as [mcp__<name>]. *)
Theorem IDE_Materialize_claude_enables_servers (ide : Ide) (mcp : Mcp) (name : string)
    (w w' : World) (res : MaterializedResult) :
  ide_mcp ide = Some mcp →
  is_Some (mcp_servers mcp !! name) →
  IDE_Materialize claude_IDE (Some ide) w = (Ok res, w') →
  ∃ s, file_entry settingsPath (json_indent (encode_claudeSettings s)) ∈ result_entries res
       ∧ ("mcp__" +:+ name) ∈ elems (Allow (Permissions_ s))
       ∧ name ∈ elems (EnabledMcpjsonServers s).
Proof using Type.
  intros Hmcp Hname. apply (elem_of_server_names ide mcp name Hmcp) in Hname.
  unfold IDE_Materialize, bind, ret.
  assert (∀ cmdEntries w1,
    match materializeMcp claude_IDE (ide_mcp ide) w1 with
    | (Ok mcpEntries, w2) =>
        (Ok {| result_entries :=
                 (cmdEntries
                  ++ [file_entry settingsPath
                        (json_indent
                           (encode_claudeSettings
                              (merged_claudeSettings (ide_permissions ide) (server_names ide)
                                 (command_names ide)
                                 (default "" (ReadFile settingsPath w1)))))])
                 ++ mcpEntries |}, w2)
    | (Err e, w2) => (Err e, w2)
    end = (Ok res, w') →
    ∃ s, file_entry settingsPath (json_indent (encode_claudeSettings s)) ∈ result_entries res
         ∧ ("mcp__" +:+ name) ∈ elems (Allow (Permissions_ s))
         ∧ name ∈ elems (EnabledMcpjsonServers s)) as Hrest.
  { intros cmdEntries w1.
    destruct (materializeMcp claude_IDE (ide_mcp ide) w1) as [[mcpEntries|e] w2];
      [|discriminate].
    intros [= <- <-]. eexists. split_and!.
    - cbn [result_entries]. rewrite !elem_of_app, list_elem_of_singleton. left. by right.
    - cbn [merged_claudeSettings Permissions_ Allow elems default].
      apply elem_of_mergeUniqueStrings. right.
      rewrite !elem_of_app. left. right. apply elem_of_server_permissions. by exists name.
    - cbn [merged_claudeSettings EnabledMcpjsonServers elems default].
      apply elem_of_mergeUniqueStrings. by right. }
  destruct (ide_commands ide) as [commands|].
  - destruct (materializeCommands claude_IDE (Some commands) w) as [[cmdEntries|e] w1];
      [|discriminate].
    apply (Hrest ([] ++ cmdEntries) w1).
  - apply (Hrest [] w).
Qed.

End program.

(** ** A text syntax for the JSON values the program writes *)

Module JsonText.
Import GoStrings GoJson.

Definition dquote : ascii := ascii_of_nat 34.
Definition backslash : ascii := ascii_of_nat 92.

Definition special (c : ascii) : bool := Ascii.eqb c dquote || Ascii.eqb c backslash.

(** The inside of a string literal: a backslash before every double quote
    and backslash. *)
Fixpoint escape (s : string) : string :=
  match s with
  | EmptyString => EmptyString
  | String c s' =>
      if special c then String backslash (String c (escape s'))
      else String c (escape s')
  end.

Definition quoted (s : string) : string :=
  String dquote (escape s +:+ String dquote EmptyString).

(** Reads the inside of a string literal up to its closing quote. *)
Fixpoint read_string (s : string) : option (string * string) :=
  match s with
  | EmptyString => None
  | String c s' =>
      if Ascii.eqb c dquote then Some (EmptyString, s')
      else if Ascii.eqb c backslash then
        match s' with
        | String d s'' =>
            match read_string s'' with
            | Some (t, r) => Some (String d t, r)
            | None => None
            end
        | EmptyString => None
        end
      else match read_string s' with
           | Some (t, r) => Some (String c t, r)
           | None => None
           end
  end.

(** The compact text of a value. *)
Fixpoint print (j : json) : string :=
  match j with
  | JNull => "null"
  | JBool true => "true"
  | JBool false => "false"
  | JNumber literal => match literal with EmptyString => "0" | _ => literal end
  | JString s => quoted s
  | JArray elems =>
      String "["
        ((fix print_elems (l : list json) : string :=
            match l with
            | [] => "]"
            | x :: l' =>
                print x +:+ match l' with
                            | [] => "]"
                            | _ => String "," (print_elems l')
                            end
            end) elems)
  | JObject members =>
      String "{"
        ((fix print_members (l : list (string * json)) : string :=
            match l with
            | [] => "}"
            | (k, v) :: l' =>
                quoted k +:+ String ":" (print v +:+ match l' with
                                                     | [] => "}"
                                                     | _ => String "," (print_members l')
                                                     end)
            end) members)
  end.

Fixpoint print_elems (l : list json) : string :=
  match l with
  | [] => "]"
  | x :: l' =>
      print x +:+ match l' with
                  | [] => "]"
                  | _ => String "," (print_elems l')
                  end
  end.

Fixpoint print_members (l : list (string * json)) : string :=
  match l with
  | [] => "}"
  | (k, v) :: l' =>
      quoted k +:+ String ":" (print v +:+ match l' with
                                           | [] => "}"
                                           | _ => String "," (print_members l')
                                           end)
  end.

Fixpoint parse_value (fuel : nat) (s : string) : option (json * string) :=
  match fuel with
  | O => None
  | S fuel' =>
      if HasPrefix s "null" then Some (JNull, drop_bytes 4 s)
      else if HasPrefix s "true" then Some (JBool true, drop_bytes 4 s)
      else if HasPrefix s "false" then Some (JBool false, drop_bytes 5 s)
      else match s with
           | EmptyString => None
           | String c r =>
               if Ascii.eqb c dquote then
                 match read_string r with
                 | Some (t, r') => Some (JString t, r')
                 | None => None
                 end
               else if Ascii.eqb c "[" then
                 if HasPrefix r "]" then Some (JArray [], drop_bytes 1 r)
                 else match parse_elems fuel' r with
                      | Some (l, r') => Some (JArray l, r')
                      | None => None
                      end
               else if Ascii.eqb c "{" then
                 if HasPrefix r "}" then Some (JObject [], drop_bytes 1 r)
                 else match parse_members fuel' r with
                      | Some (l, r') => Some (JObject l, r')
                      | None => None
                      end
               else None
           end
  end
with parse_elems (fuel : nat) (s : string) : option (list json * string) :=
  match fuel with
  | O => None
  | S fuel' =>
      match parse_value fuel' s with
      | Some (x, String c r) =>
          if Ascii.eqb c "]" then Some ([x], r)
          else if Ascii.eqb c "," then
            match parse_elems fuel' r with
            | Some (l, r') => Some (x :: l, r')
            | None => None
            end
          else None
      | _ => None
      end
  end
with parse_members (fuel : nat) (s : string) : option (list (string * json) * string) :=
  match fuel with
  | O => None
  | S fuel' =>
      match s with
      | String q r =>
          if Ascii.eqb q dquote then
            match read_string r with
            | Some (k, String colon r1) =>
                if Ascii.eqb colon ":" then
                  match parse_value fuel' r1 with
                  | Some (v, String c r2) =>
                      if Ascii.eqb c "}" then Some ([(k, v)], r2)
                      else if Ascii.eqb c "," then
                        match parse_members fuel' r2 with
                        | Some (l, r') => Some ((k, v) :: l, r')
                        | None => None
                        end
                      else None
                  | _ => None
                  end
                else None
            | _ => None
            end
          else None
      | EmptyString => None
      end
  end.

(** A text is read with as much fuel as it has characters, and must be
    read to its end. *)
Definition parse (s : string) : option json :=
  match parse_value (S (String.length s)) s with
  | Some (j, EmptyString) => Some j
  | _ => None
  end.


(** The values without a number: those the program writes. *)
Fixpoint number_free (j : json) : bool :=
  match j with
  | JNumber _ => false
  | JArray elems => forallb number_free elems
  | JObject members => forallb (λ kv, match kv with (_, v) => number_free v end) members
  | _ => true
  end.

Lemma length_append (a b : string) :
  String.length (a +:+ b) = String.length a + String.length b.
Proof. induction a as [|c a IH]; [done|]. rewrite append_cons. simpl. by rewrite IH. Qed.

Lemma read_string_escape (s rest : string) :
  read_string (escape s +:+ String dquote rest) = Some (s, rest).
Proof.
  induction s as [|c s IH]; [done|].
  cbn [escape]. unfold special. destruct (Ascii.eqb c dquote) eqn:Hq.
  - cbn [orb]. rewrite !append_cons. cbn [read_string].
    change (Ascii.eqb backslash dquote) with false.
    change (Ascii.eqb backslash backslash) with true. cbn iota. by rewrite IH.
  - destruct (Ascii.eqb c backslash) eqn:Hb; cbn [orb].
    + rewrite !append_cons. cbn [read_string].
      change (Ascii.eqb backslash dquote) with false.
      change (Ascii.eqb backslash backslash) with true. cbn iota. by rewrite IH.
    + rewrite append_cons. cbn [read_string]. by rewrite Hq, Hb, IH.
Qed.

Lemma read_quoted (s rest : string) :
  read_string (escape s +:+ String dquote EmptyString +:+ rest) = Some (s, rest).
Proof. apply read_string_escape. Qed.

Lemma print_string (s : string) :
  print (JString s) = String dquote (escape s +:+ String dquote EmptyString).
Proof. reflexivity. Qed.

Lemma print_array (l : list json) : print (JArray l) = String "[" (print_elems l).
Proof. reflexivity. Qed.

Lemma print_object (l : list (string * json)) :
  print (JObject l) = String "{" (print_members l).
Proof. reflexivity. Qed.

Lemma print_nonempty (j : json) : print j ≠ "".
Proof. destruct j as [|[]|[|]| | |]; done. Qed.

Lemma print_length_pos (j : json) : (1 ≤ String.length (print j))%nat.
Proof.
  pose proof (print_nonempty j). destruct (print j); [done | simpl; lia].
Qed.


(** The text of a value without a number does not start as the end of an
    array does. *)
Lemma print_not_closing (j : json) (rest : string) :
  number_free j = true → HasPrefix (print j +:+ rest) "]" = false.
Proof. destruct j as [|[]| | | |]; done. Qed.

Lemma HasPrefix_other (c p : ascii) (s prefix : string) :
  Ascii.eqb c p = false → HasPrefix (String c s) (String p prefix) = false.
Proof. intros H. cbn [HasPrefix]. by rewrite H. Qed.

Lemma print_elems_not_closing (l : list json) (rest : string) :
  l ≠ [] → forallb number_free l = true → HasPrefix (print_elems l +:+ rest) "]" = false.
Proof.
  destruct l as [|x l]; [done|]. intros _ Hfree.
  cbn [forallb] in Hfree. apply andb_true_iff in Hfree as [Hx _].
  cbn [print_elems]. rewrite append_assoc. by apply print_not_closing.
Qed.

Lemma parse_print_value : ∀ (fuel : nat) (j : json) (rest : string),
  number_free j = true →
  (String.length (print j) ≤ fuel)%nat →
  parse_value fuel (print j +:+ rest) = Some (j, rest).
Proof.
  induction fuel as [fuel IH] using lt_wf_ind. intros j rest Hfree Hlen.
  destruct fuel as [|fuel']; [pose proof (print_length_pos j); lia|].
  destruct j as [|[]|literal|s|elems|members]; try discriminate Hfree.
  - reflexivity.
  - reflexivity.
  - reflexivity.
  - (* a string *)
    rewrite print_string, append_cons.
    cbn [parse_value]. rewrite !HasPrefix_other by reflexivity.
    change (Ascii.eqb dquote dquote) with true. cbn iota.
    rewrite append_assoc. by rewrite read_quoted.
  - (* an array *)
    rewrite print_array in Hlen |- *. rewrite append_cons.
    cbn [parse_value]. rewrite !HasPrefix_other by reflexivity.
    change (Ascii.eqb "[" dquote) with false.
    change (Ascii.eqb "[" "[") with true. cbn iota.
    destruct elems as [|x elems]; [done|].
    assert (∀ (l : list json) (g : nat),
              (g ≤ fuel')%nat → l ≠ [] → forallb number_free l = true →
              (String.length (print_elems l) ≤ g)%nat →
              parse_elems g (print_elems l +:+ rest) = Some (l, rest)) as Helems.
    { clear x elems Hfree Hlen.
      induction l as [|y l IHl]; intros g Hg Hne Hfree Hlen; [done|].
      cbn [forallb] in Hfree. apply andb_true_iff in Hfree as [Hy Hl].
      cbn [print_elems] in Hlen |- *. rewrite length_append in Hlen.
      rewrite append_assoc.
      destruct g as [|g']; [pose proof (print_length_pos y); lia|].
      cbn [parse_elems].
      destruct l as [|z l].
      - rewrite IH; [done | lia | done | simpl in Hlen; lia].
      - rewrite IH; [| lia | done | simpl in Hlen; lia].
        rewrite append_cons. cbn iota.
        change (Ascii.eqb "," "]") with false. change (Ascii.eqb "," ",") with true.
        cbn iota.
        rewrite IHl; [done | lia | done | done |].
        pose proof (print_length_pos y). cbn [String.length] in Hlen. lia. }
    cbn [number_free] in Hfree.
    rewrite print_elems_not_closing by done.
    rewrite Helems; [done | lia | done | done |].
    cbn [String.length] in Hlen. lia.
  - (* an object *)
    rewrite print_object in Hlen |- *. rewrite append_cons.
    cbn [parse_value]. rewrite !HasPrefix_other by reflexivity.
    change (Ascii.eqb "{" dquote) with false.
    change (Ascii.eqb "{" "[") with false.
    change (Ascii.eqb "{" "{") with true. cbn iota.
    destruct members as [|[k v] members]; [done|].
    assert (∀ (l : list (string * json)) (g : nat),
              (g ≤ fuel')%nat → l ≠ [] →
              forallb (λ kv, match kv with (_, v) => number_free v end) l = true →
              (String.length (print_members l) ≤ g)%nat →
              parse_members g (print_members l +:+ rest) = Some (l, rest)) as Hmembers.
    { clear k v members Hfree Hlen.
      induction l as [|[k v] l IHl]; intros g Hg Hne Hfree Hlen; [done|].
      cbn [forallb] in Hfree. apply andb_true_iff in Hfree as [Hv Hl].
      cbn [print_members] in Hlen |- *. unfold quoted in Hlen |- *.
      rewrite append_cons in Hlen. cbn [String.length] in Hlen.
      rewrite !length_append in Hlen. cbn [String.length] in Hlen.
      rewrite length_append in Hlen.
      rewrite !append_cons.
      destruct g as [|g']; [lia|].
      cbn [parse_members]. change (Ascii.eqb dquote dquote) with true. cbn iota.
      rewrite !append_assoc. rewrite read_quoted.
      rewrite append_cons. change (Ascii.eqb ":" ":") with true. cbn iota.
      rewrite append_assoc.
      pose proof (print_length_pos v) as Hpos.
      destruct l as [|z l].
      - rewrite IH; [done | lia | done | lia].
      - rewrite IH; [| lia | done | lia].
        rewrite append_cons. cbn iota.
        change (Ascii.eqb "," "}") with false. change (Ascii.eqb "," ",") with true.
        cbn iota.
        rewrite IHl; [done | lia | done | done |].
        cbn [String.length] in Hlen. lia. }
    cbn [number_free] in Hfree.
    assert (HasPrefix (print_members ((k, v) :: members) +:+ rest) "}" = false) as ->.
    { done. }
    rewrite Hmembers; [done | lia | done | done |].
    cbn [String.length] in Hlen. lia.
Qed.

(** Reading the text of a value without a number gives the value. *)
Lemma parse_print (j : json) : number_free j = true → parse (print j) = Some j.
Proof.
  intros Hfree. unfold parse.
  rewrite <-(append_empty_r (print j)) at 2.
  rewrite parse_print_value; [done | done |]. lia.
Qed.

End JsonText.

(** What the program writes holds no number. *)
Section written_values.
Import GoJson JsonText.

Lemma number_free_strings (l : option (list string)) :
  number_free (encode_strings l) = true.
Proof.
  destruct l as [l|]; [|done]. cbn [encode_strings number_free].
  induction l as [|s l IH]; [done|]. done.
Qed.

Lemma number_free_map {V} (enc : V → json) (m : option (gmap string V)) :
  (∀ v, number_free (enc v) = true) → number_free (encode_map enc m) = true.
Proof.
  intros Henc. destruct m as [m|]; [|done]. cbn [encode_map number_free].
  induction (sorted_names m) as [|k names IH]; [done|].
  cbn [omap list_omap]. destruct (m !! k) as [v|]; [|done].
  cbn [fmap option_fmap option_map forallb]. by rewrite Henc, IH.
Qed.

Lemma number_free_omitempty (name : string) (empty : bool) (j : json)
    (members : list (string * json)) :
  number_free j = true →
  forallb (λ kv, match kv with (_, v) => number_free v end) members = true →
  forallb (λ kv, match kv with (_, v) => number_free v end)
    (omitempty name empty j ++ members) = true.
Proof.
  intros Hj Hmembers. destruct empty; cbn [omitempty app forallb]; [done|].
  by rewrite Hj, Hmembers.
Qed.

Lemma number_free_mcpServerConfig (c : mcpServerConfig) :
  number_free (encode_mcpServerConfig c) = true.
Proof.
  unfold encode_mcpServerConfig. cbn [number_free].
  repeat apply number_free_omitempty; try done.
  - apply number_free_strings.
  - by apply number_free_map.
  - rewrite <-(app_nil_r (omitempty _ _ _)). by apply number_free_omitempty.
Qed.

Lemma number_free_mcpJson (cm : mcpJson) : number_free (encode_mcpJson cm) = true.
Proof.
  unfold encode_mcpJson. cbn [number_free forallb].
  rewrite number_free_map; [done|]. apply number_free_mcpServerConfig.
Qed.

(** In the compact text syntax every servers file written is read back as
    the value it was written from. *)
Lemma parse_print_mcpJson (cm : mcpJson) :
  parse (print (encode_mcpJson cm)) = Some (encode_mcpJson cm).
Proof. apply parse_print, number_free_mcpJson. Qed.

End written_values.

(** ** The text syntax of [encoding/json]

    What [json.MarshalIndent(v, "", "  ")] writes for a JSON value and what
    [json.Unmarshal] reads a text as, byte for byte: the escapes of strings
    and their treatment of bytes that are no UTF-8, the layout, white
    space, numbers kept as their literals.  (The limit on the depth of
    nesting is left out.) *)

Module GoText.
Import GoStrings GoJson.

Definition dquote : ascii := ascii_of_nat 34.
Definition backslash : ascii := ascii_of_nat 92.

Definition byte (c : ascii) : N := N_of_ascii c.

Definition bytes (l : list N) : string :=
  foldr (λ b s, String (ascii_of_N b) s) EmptyString l.

(** *** UTF-8: package [unicode/utf8] *)

Definition RuneError : N := 65533%N.

(** For a leading byte of a sequence of more than one byte: the length of
    the sequence and the range its second byte must lie in. *)
Definition lead (b0 : N) : option (nat * N * N) :=
  if ((194 <=? b0) && (b0 <=? 223))%N then Some (2%nat, 128%N, 191%N)
  else if (b0 =? 224)%N then Some (3%nat, 160%N, 191%N)
  else if ((225 <=? b0) && (b0 <=? 236))%N then Some (3%nat, 128%N, 191%N)
  else if (b0 =? 237)%N then Some (3%nat, 128%N, 159%N)
  else if ((238 <=? b0) && (b0 <=? 239))%N then Some (3%nat, 128%N, 191%N)
  else if (b0 =? 240)%N then Some (4%nat, 144%N, 191%N)
  else if ((241 <=? b0) && (b0 <=? 243))%N then Some (4%nat, 128%N, 191%N)
  else if (b0 =? 244)%N then Some (4%nat, 128%N, 143%N)
  else None.

Definition continuation (b : N) : bool := ((128 <=? b) && (b <=? 191))%N.

(** [utf8.DecodeRuneInString]: the rune at the head of [s] and its width;
    [(RuneError, 1)] for a byte that starts no well-formed sequence. *)
Definition DecodeRune (s : string) : N * nat :=
  match s with
  | EmptyString => (RuneError, 0)
  | String c0 s1 =>
      let b0 := byte c0 in
      if (b0 <? 128)%N then (b0, 1)
      else
        match lead b0, s1 with
        | Some (size, lo, hi), String c1 s2 =>
            let b1 := byte c1 in
            if ((b1 <? lo) || (hi <? b1))%N then (RuneError, 1)
            else if (size =? 2)%nat then (((b0 mod 32) * 64 + b1 mod 64)%N, 2)
            else
              match s2 with
              | String c2 s3 =>
                  let b2 := byte c2 in
                  if negb (continuation b2) then (RuneError, 1)
                  else if (size =? 3)%nat
                  then ((((b0 mod 16) * 64 + b1 mod 64) * 64 + b2 mod 64)%N, 3)
                  else
                    match s3 with
                    | String c3 _ =>
                        let b3 := byte c3 in
                        if negb (continuation b3) then (RuneError, 1)
                        else (((((b0 mod 8) * 64 + b1 mod 64) * 64 + b2 mod 64) * 64
                               + b3 mod 64)%N, 4)
                    | EmptyString => (RuneError, 1)
                    end
              | EmptyString => (RuneError, 1)
              end
        | _, _ => (RuneError, 1)
        end
  end.

(** [utf8.AppendRune]: a surrogate and a rune beyond U+10FFFF are written
    as U+FFFD. *)
Definition EncodeRune (r : N) : string :=
  if (r <=? 127)%N then bytes [r]
  else if (r <=? 2047)%N then bytes [192 + r / 64; 128 + r mod 64]%N
  else if ((1114111 <? r) || ((55296 <=? r) && (r <=? 57343)))%N
  then bytes [239; 191; 189]%N
  else if (r <=? 65535)%N
  then bytes [224 + r / 4096; 128 + (r / 64) mod 64; 128 + r mod 64]%N
  else bytes [240 + r / 262144; 128 + (r / 4096) mod 64; 128 + (r / 64) mod 64;
              128 + r mod 64]%N.

(** *** Writing: [appendString] with [escapeHTML], and [Indent] *)

Definition hex (d : N) : ascii :=
  if (d <? 10)%N then ascii_of_N (48 + d) else ascii_of_N (87 + d).

(** [htmlSafeSet]: the ASCII bytes written as they are. *)
Definition htmlSafe (b : N) : bool :=
  ((32 <=? b) && negb ((b =? 34) || (b =? 38) || (b =? 60) || (b =? 62) || (b =? 92)))%N.

(** The escape of an ASCII byte that is not in [htmlSafeSet] (backspace
    and form feed as Go writes them from 1.22 on; before, as [\u0008] and
    [\u000c]). *)
Definition escape_ascii (b : N) : string :=
  if ((b =? 92) || (b =? 34))%N then String backslash (bytes [b])
  else if (b =? 8)%N then String backslash "b"
  else if (b =? 12)%N then String backslash "f"
  else if (b =? 10)%N then String backslash "n"
  else if (b =? 13)%N then String backslash "r"
  else if (b =? 9)%N then String backslash "t"
  else String backslash (String "u" (String "0" (String "0"
         (String (hex (b / 16)) (String (hex (b mod 16)) EmptyString))))).

(** The inside of the string literal written for [s]; [fuel] bounds the
    number of steps, each of which takes at least one byte. *)
Fixpoint escape (fuel : nat) (s : string) : string :=
  match fuel, s with
  | S fuel', String c s' =>
      let b := byte c in
      if (b <? 128)%N then
        (if htmlSafe b then String c EmptyString else escape_ascii b) +:+ escape fuel' s'
      else
        let '(r, size) := DecodeRune s in
        if (r =? RuneError)%N && (size =? 1)%nat
        then String backslash "ufffd" +:+ escape fuel' s'
        else if ((r =? 8232) || (r =? 8233))%N
        then String backslash (String "u" (String "2" (String "0" (String "2"
               (String (hex (r mod 16)) EmptyString)))))
             +:+ escape fuel' (drop_bytes size s)
        else substring 0 size s +:+ escape fuel' (drop_bytes size s)
  | _, _ => EmptyString
  end.

Definition quoted (s : string) : string :=
  String dquote (escape (String.length s) s +:+ String dquote EmptyString).

(** A new line and the indentation of depth [d], two spaces a level. *)
Fixpoint newline (d : nat) : string :=
  match d with
  | O => String (ascii_of_nat 10) EmptyString
  | S d' => newline d' +:+ "  "
  end.

(** The text of a value at depth [d]. *)
Fixpoint indent_value (d : nat) (j : json) : string :=
  match j with
  | JNull => "null"
  | JBool true => "true"
  | JBool false => "false"
  | JNumber literal => literal
  | JString s => quoted s
  | JArray [] => "[]"
  | JArray (x :: l) =>
      "[" +:+ newline (S d) +:+ indent_value (S d) x
      +:+ (fix elems (l : list json) : string :=
             match l with
             | [] => EmptyString
             | y :: l' => "," +:+ newline (S d) +:+ indent_value (S d) y +:+ elems l'
             end) l
      +:+ newline d +:+ "]"
  | JObject [] => "{}"
  | JObject ((k, v) :: l) =>
      "{" +:+ newline (S d) +:+ quoted k +:+ ": " +:+ indent_value (S d) v
      +:+ (fix members (l : list (string * json)) : string :=
             match l with
             | [] => EmptyString
             | (k', v') :: l' =>
                 "," +:+ newline (S d) +:+ quoted k' +:+ ": " +:+ indent_value (S d) v'
                 +:+ members l'
             end) l
      +:+ newline d +:+ "}"
  end.

(** [json.MarshalIndent(v, "", "  ")], for the JSON value of [v]. *)
Definition indent (j : json) : string := indent_value 0 j.

(** *** Reading: the scanner and [unquote] *)

Definition is_space (c : ascii) : bool :=
  let b := byte c in ((b =? 32) || (b =? 9) || (b =? 13) || (b =? 10))%N.

Fixpoint skip_space (s : string) : string :=
  match s with
  | String c s' => if is_space c then skip_space s' else s
  | EmptyString => s
  end.

Definition hex_value (c : ascii) : option N :=
  let b := byte c in
  if ((48 <=? b) && (b <=? 57))%N then Some (b - 48)%N
  else if ((97 <=? b) && (b <=? 102))%N then Some (b - 87)%N
  else if ((65 <=? b) && (b <=? 70))%N then Some (b - 55)%N
  else None.

(** [getu4]: the number of a [\uXXXX] at the head of [s]. *)
Definition getu4 (s : string) : option N :=
  match s with
  | String c0 (String c1 (String h1 (String h2 (String h3 (String h4 _))))) =>
      if Ascii.eqb c0 backslash && Ascii.eqb c1 "u" then
        match hex_value h1, hex_value h2, hex_value h3, hex_value h4 with
        | Some a, Some b, Some c, Some d => Some (((a * 16 + b) * 16 + c) * 16 + d)%N
        | _, _, _, _ => None
        end
      else None
  | _ => None
  end.

Definition is_surrogate (r : N) : bool := ((55296 <=? r) && (r <? 57344))%N.

(** [utf16.DecodeRune]; the second half may be missing. *)
Definition utf16_DecodeRune (r1 : N) (r2 : option N) : N :=
  match r2 with
  | Some r2 =>
      if ((55296 <=? r1) && (r1 <? 56320) && (56320 <=? r2) && (r2 <? 57344))%N
      then ((r1 - 55296) * 1024 + (r2 - 56320) + 65536)%N
      else RuneError
  | None => RuneError
  end.

(** The inside of a string literal up to its closing quote, as the scanner
    accepts it and [unquote] decodes it, and the text after the quote. *)
Fixpoint read_string (fuel : nat) (s : string) : option (string * string) :=
  match fuel, s with
  | S fuel', String c s' =>
      let b := byte c in
      if Ascii.eqb c dquote then Some (EmptyString, s')
      else if Ascii.eqb c backslash then
        match s' with
        | String e s'' =>
            let simple (b : N) :=
              match read_string fuel' s'' with
              | Some (t, r) => Some (String (ascii_of_N b) t, r)
              | None => None
              end in
            if Ascii.eqb e dquote then simple 34%N
            else if Ascii.eqb e backslash then simple 92%N
            else if Ascii.eqb e "/" then simple 47%N
            else if Ascii.eqb e "b" then simple 8%N
            else if Ascii.eqb e "f" then simple 12%N
            else if Ascii.eqb e "n" then simple 10%N
            else if Ascii.eqb e "r" then simple 13%N
            else if Ascii.eqb e "t" then simple 9%N
            else if Ascii.eqb e "u" then
              match getu4 s with
              | Some rr =>
                  let after := drop_bytes 6 s in
                  let dec := if is_surrogate rr then utf16_DecodeRune rr (getu4 after)
                             else rr in
                  let paired := is_surrogate rr && negb (dec =? RuneError)%N in
                  match read_string fuel' (if paired then drop_bytes 6 after else after) with
                  | Some (t, r) => Some (EncodeRune dec +:+ t, r)
                  | None => None
                  end
              | None => None
              end
            else None
        | EmptyString => None
        end
      else if (b <? 32)%N then None
      else if (b <? 128)%N then
        match read_string fuel' s' with
        | Some (t, r) => Some (String c t, r)
        | None => None
        end
      else
        let '(rr, size) := DecodeRune s in
        match read_string fuel' (drop_bytes size s) with
        | Some (t, r) => Some (EncodeRune rr +:+ t, r)
        | None => None
        end
  | _, _ => None
  end.

Definition is_digit (c : ascii) : bool := let b := byte c in ((48 <=? b) && (b <=? 57))%N.

Fixpoint digits (s : string) : string * string :=
  match s with
  | String c s' =>
      if is_digit c then let '(d, r) := digits s' in (String c d, r) else (EmptyString, s)
  | EmptyString => (EmptyString, s)
  end.

(** A number literal at the head of [s], and the text after it. *)
Definition read_number (s : string) : option (string * string) :=
  let '(sign, s1) := match s with
                     | String "-" s' => ("-", s')
                     | _ => (EmptyString, s)
                     end in
  let '(int, s2) := digits s1 in
  match int with
  | EmptyString => None
  | String d rest =>
      if Ascii.eqb d "0" && negb (String.eqb rest "") then None
      else
        let frac :=
          match s2 with
          | String "." s' =>
              let '(f, r) := digits s' in
              match f with
              | EmptyString => None
              | _ => Some ("." +:+ f, r)
              end
          | _ => Some (EmptyString, s2)
          end in
        match frac with
        | None => None
        | Some (f, s3) =>
            let exp :=
              match s3 with
              | String e s' =>
                  if Ascii.eqb e "e" || Ascii.eqb e "E" then
                    let '(sg, s'') := match s' with
                                      | String "+" t => ("+", t)
                                      | String "-" t => ("-", t)
                                      | _ => (EmptyString, s')
                                      end in
                    let '(x, r) := digits s'' in
                    match x with
                    | EmptyString => None
                    | _ => Some (String e (sg +:+ x), r)
                    end
                  else Some (EmptyString, s3)
              | EmptyString => Some (EmptyString, s3)
              end in
            match exp with
            | None => None
            | Some (x, r) => Some (sign +:+ int +:+ f +:+ x, r)
            end
        end
  end.

(** A value at the head of [s], after white space, and the text after
    it. *)
Fixpoint parse_value (fuel : nat) (s : string) : option (json * string) :=
  match fuel with
  | O => None
  | S fuel' =>
      let s := skip_space s in
      if HasPrefix s "null" then Some (JNull, drop_bytes 4 s)
      else if HasPrefix s "true" then Some (JBool true, drop_bytes 4 s)
      else if HasPrefix s "false" then Some (JBool false, drop_bytes 5 s)
      else match s with
           | EmptyString => None
           | String c r =>
               if Ascii.eqb c dquote then
                 match read_string (String.length r) r with
                 | Some (t, r') => Some (JString t, r')
                 | None => None
                 end
               else if Ascii.eqb c "[" then
                 if HasPrefix (skip_space r) "]"
                 then Some (JArray [], drop_bytes 1 (skip_space r))
                 else match parse_elems fuel' r with
                      | Some (l, r') => Some (JArray l, r')
                      | None => None
                      end
               else if Ascii.eqb c "{" then
                 if HasPrefix (skip_space r) "}"
                 then Some (JObject [], drop_bytes 1 (skip_space r))
                 else match parse_members fuel' r with
                      | Some (l, r') => Some (JObject l, r')
                      | None => None
                      end
               else if Ascii.eqb c "-" || is_digit c then
                 match read_number s with
                 | Some (literal, r') => Some (JNumber literal, r')
                 | None => None
                 end
               else None
           end
  end
with parse_elems (fuel : nat) (s : string) : option (list json * string) :=
  match fuel with
  | O => None
  | S fuel' =>
      match parse_value fuel' s with
      | Some (x, r) =>
          match skip_space r with
          | String c r' =>
              if Ascii.eqb c "]" then Some ([x], r')
              else if Ascii.eqb c "," then
                match parse_elems fuel' r' with
                | Some (l, r'') => Some (x :: l, r'')
                | None => None
                end
              else None
          | EmptyString => None
          end
      | None => None
      end
  end
with parse_members (fuel : nat) (s : string) : option (list (string * json) * string) :=
  match fuel with
  | O => None
  | S fuel' =>
      match skip_space s with
      | String q r =>
          if Ascii.eqb q dquote then
            match read_string (String.length r) r with
            | Some (k, r1) =>
                match skip_space r1 with
                | String colon r2 =>
                    if Ascii.eqb colon ":" then
                      match parse_value fuel' r2 with
                      | Some (v, r3) =>
                          match skip_space r3 with
                          | String c r4 =>
                              if Ascii.eqb c "}" then Some ([(k, v)], r4)
                              else if Ascii.eqb c "," then
                                match parse_members fuel' r4 with
                                | Some (l, r') => Some ((k, v) :: l, r')
                                | None => None
                                end
                              else None
                          | EmptyString => None
                          end
                      | None => None
                      end
                    else None
                | EmptyString => None
                end
            | None => None
            end
          else None
      | EmptyString => None
      end
  end.

(** The value of a text: one value, with white space around it and
    nothing else. *)
Definition parse (s : string) : option json :=
  match parse_value (S (String.length s)) s with
  | Some (j, r) => match skip_space r with EmptyString => Some j | _ => None end
  | None => None
  end.

End GoText.

(** ** A small world, for running the program

    The world counts the commands run and the pages fetched.  The shell
    fails on ["exit 1"] and prints its command otherwise; every page is
    found; no file exists; only the output of ["echo data"] is a prefetch
    result, holding the data ["v"] under the id ["k"]. *)

Module demo.
Import GoStrings utils adcp core GoJson.

Definition sh (cmd : string) (w : nat) : (string * option string) * nat :=
  if String.eqb cmd "exit 1" then (("", Some "exit status 1"), S w)
  else ((cmd +:+ " ran", None), S w).

Definition http_get (url : string) (w : nat) : http_outcome * nat :=
  (http_response 200 (Ok ("page " +:+ url)), S w).

Definition ReadFile (path : string) (w : nat) : option string := None.

Definition protojson_Unmarshal (data : string) : result PrefetchResult :=
  if String.eqb data "echo data ran"
  then Ok {| prefetch_data := [{| data_id := "k"; data_data := "v" |}] |}
  else Err "proto: syntax error (line 1:1): invalid value".

Definition not_set_String : string := "not set".

(** The items of the test [TestContext_FetchCombined_Success], and those of
    [TestContext_FetchCombined_FailedItem]. *)
Definition three_items : CombinedContextSource :=
  {| combined_items := [Some (Item_Text "# Overview: ");
                        Some (Item_Cmd "echo 'from command'");
                        Some (Item_Text "# End")] |}.

Definition failing_items : CombinedContextSource :=
  {| combined_items := [Some (Item_Text "text1"); Some (Item_Cmd "exit 1");
                        Some (Item_Text "never read")] |}.

(** A prefetch whose second command prints what is no prefetch result. *)
Definition bad_prefetch : Prefetch :=
  {| prefetch_entries := [Some (PrefetchEntry_Cmd "echo data");
                          Some (PrefetchEntry_Cmd "echo hello")] |}.

(** An IDE provider that gives one fixed entry. *)
Definition fixed_IDE : IDEProvider nat :=
  {| IDEProvider_Materialize := λ _, ret nat {| result_entries := [file_entry ".mcp.json" "{}"] |} |}.

Definition full_recipe : Recipe :=
  {| recipe_context :=
       Some {| context_entries :=
                 [Some {| context_path := "README.md";
                          context_from := Some (ContextFrom_Text "# Project README") |};
                  Some {| context_path := "data.txt";
                          context_from := Some (ContextFrom_PrefetchId "k") |}] |};
     recipe_ide :=
       Some {| ide_commands := None; ide_permissions := None; ide_mcp := None |};
     recipe_prefetch :=
       Some {| prefetch_entries := [Some (PrefetchEntry_Cmd "echo data")] |} |}.

End demo.

(** The three items resolve to their contents, one after the other; of the
    failing items the second, at index 1, is reported. *)
Lemma fetchCombined_concatenates_witness :
  fetchCombined nat demo.sh demo.http_get (Some demo.three_items) None 0
  = (Ok "# Overview: echo 'from command' ran# End", 1)
  ∧ fetchCombined nat demo.sh demo.http_get (Some demo.failing_items) None 0
    = (Err ("failed to fetch combined item 1: "
            +:+ "command execution failed: exit status 1 (output: )"), 1)
  ∧ fetchCombined nat demo.sh demo.http_get
      (Some {| adcp.combined_items := [] |}) None 7 = (Ok "", 7).
Proof.
  split; [|split].
  - apply (proj1 (proj2 (fetchCombined_concatenates nat demo.sh demo.http_get
                           demo.three_items None 0))
             ["# Overview: "; "echo 'from command' ran"; "# End"] 1).
    repeat (econstructor; [reflexivity|]). constructor.
  - apply (proj1 (proj2 (proj2 (fetchCombined_concatenates nat demo.sh demo.http_get
                                  demo.failing_items None 0)))
             1 "command execution failed: exit status 1 (output: )" 1).
    exists [Some (adcp.Item_Text "text1")], (Some (adcp.Item_Cmd "exit 1")),
      [Some (adcp.Item_Text "never read")], ["text1"], 0.
    split; [reflexivity|]. split; [reflexivity|]. split; [|reflexivity].
    econstructor; [reflexivity | constructor].
  - apply (proj1 (fetchCombined_concatenates nat demo.sh demo.http_get
                    {| adcp.combined_items := [] |} None 7)).
    reflexivity.
Defined.

(** The second entry of [demo.bad_prefetch] prints what is no prefetch
    result: the error does not say that it is the entry at index 1. *)
Lemma Process_entries_unparsed_output_witness :
  Process_entries nat demo.sh demo.protojson_Unmarshal demo.not_set_String 1
    [Some (adcp.PrefetchEntry_Cmd "echo hello")] ∅ 1
  = (Err ("failed to unmarshal prefetch result: "
          +:+ "proto: syntax error (line 1:1): invalid value"), 2)
  ∧ Process nat demo.sh demo.protojson_Unmarshal demo.not_set_String
      (Some {| adcp.prefetch_entries := [Some (adcp.PrefetchEntry_Cmd "echo hello")] |}) 1
    = (Err ("failed to unmarshal prefetch result: "
            +:+ "proto: syntax error (line 1:1): invalid value"), 2).
Proof.
  apply (Process_entries_unparsed_output nat demo.sh demo.protojson_Unmarshal
           demo.not_set_String 1 (adcp.PrefetchEntry_Cmd "echo hello") [] ∅ 1 2
           "echo hello ran" "proto: syntax error (line 1:1): invalid value");
    reflexivity.
Defined.

(** The whole prefetch: the first entry is stored, the second fails, and
    the error carries no index and no map. *)
Example Process_bad_prefetch :
  Process nat demo.sh demo.protojson_Unmarshal demo.not_set_String
    (Some demo.bad_prefetch) 0
  = (Err ("failed to unmarshal prefetch result: "
          +:+ "proto: syntax error (line 1:1): invalid value"), 2).
Proof. reflexivity. Qed.

(** A recipe with the three sections: the two context entries come first,
    the entry of the IDE after them, and the prefetch gives none. *)
Lemma Recipe_Materialize_entries_witness :
  Recipe_Materialize nat demo.sh demo.http_get demo.protojson_Unmarshal
    demo.not_set_String demo.fixed_IDE (Some demo.full_recipe) 0
  = (Ok {| adcp.result_entries :=
             [adcp.file_entry "README.md" "# Project README";
              adcp.file_entry "data.txt" "v"]
             ++ [adcp.file_entry ".mcp.json" "{}"] |}, 1).
Proof.
  apply (Recipe_Materialize_entries nat demo.sh demo.http_get demo.protojson_Unmarshal
           demo.not_set_String demo.fixed_IDE demo.full_recipe 0 1 1 1
           (Some {["k" := {| adcp.data_id := "k"; adcp.data_data := "v" |}]})).
  - reflexivity.
  - reflexivity.
  - reflexivity.
Defined.

(** The servers file of the scenario, written over no file and then over
    what was written, in the text syntax of [encoding/json]. *)
Lemma buildMcpJSON_idempotent_witness :
  ∃ content,
    buildMcpJSON GoText.parse GoText.indent (Some devplan_mcp) "" = Ok content
    ∧ buildMcpJSON GoText.parse GoText.indent (Some devplan_mcp) content = Ok content.
Proof.
  apply (buildMcpJSON_idempotent GoText.parse GoText.indent devplan_mcp "").
  - vm_compute. discriminate.
  - vm_compute. reflexivity.
Defined.

(** A server whose name is the one byte 255, which is no UTF-8. *)
Definition invalid_name : string := String (ascii_of_nat 255) EmptyString.

Definition invalid_name_mcp : adcp.Mcp :=
  {| adcp.mcp_servers :=
       {[ invalid_name := Some (adcp.McpServer_Http "https://example.com/mcp") ]} |}.

(** The name as it is read back: U+FFFD, in three bytes. *)
Definition replaced_name : string := GoText.EncodeRune GoText.RuneError.

(** The first run writes the name as [\ufffd], so the file is read back
    with one server, under U+FFFD. *)
Example buildMcpJSON_invalid_name_first :
  ∃ content,
    buildMcpJSON GoText.parse GoText.indent (Some invalid_name_mcp) "" = Ok content
    ∧ GoText.parse content
      = Some (GoJson.JObject
                [("mcpServers",
                  GoJson.JObject
                    [(replaced_name,
                      GoJson.JObject [("type", GoJson.JString "http");
                                      ("url", GoJson.JString "https://example.com/mcp")])])]).
Proof. eexists. split; [reflexivity|]. vm_compute. reflexivity. Qed.

(** The second run adds the server of the spec under its own name, beside
    the one read back: the value written has two servers. *)
Example buildMcpJSON_invalid_name_second :
  encode_mcpJson
    (merged_mcpJson GoText.parse invalid_name_mcp
       (GoText.indent (encode_mcpJson (merged_mcpJson GoText.parse invalid_name_mcp ""))))
  = GoJson.JObject
      [("mcpServers",
        GoJson.JObject
          [(replaced_name,
            GoJson.JObject [("type", GoJson.JString "http");
                            ("url", GoJson.JString "https://example.com/mcp")]);
           (invalid_name,
            GoJson.JObject [("type", GoJson.JString "http");
                            ("url", GoJson.JString "https://example.com/mcp")])])].
Proof. vm_compute. reflexivity. Qed.

(** C2 as it was stated, for every spec and every starting content, does
    not hold in the text syntax of [encoding/json]: for the server named by
    the byte 255 and no existing file, the second run returns another
    content than the first. *)
Lemma buildMcpJSON_not_idempotent :
  ¬ (∀ (mcp : adcp.Mcp) (existingContent : string),
       ∃ content,
         buildMcpJSON GoText.parse GoText.indent (Some mcp) existingContent = Ok content
         ∧ buildMcpJSON GoText.parse GoText.indent (Some mcp) content = Ok content).
Proof.
  intros H. destruct (H invalid_name_mcp "") as (content & Hfirst & Hsecond).
  vm_compute in Hfirst. injection Hfirst as <-.
  vm_compute in Hsecond. discriminate Hsecond.
Qed.

(** The scenario over a content that is no JSON. *)
Lemma buildMcpJSON_stdio_without_env_witness :
  buildMcpJSON JsonText.parse JsonText.print (Some devplan_mcp) "{ not json"
  = Ok (JsonText.print
          (GoJson.JObject
             [("mcpServers",
               GoJson.JObject
                 [("devplan",
                   GoJson.JObject [("type", GoJson.JString "stdio");
                                   ("command", GoJson.JString "devplan");
                                   ("args", GoJson.JArray [GoJson.JString "mcp"])])])])).
Proof.
  apply (proj1 (proj2 (buildMcpJSON_stdio_without_env JsonText.parse JsonText.print))).
  reflexivity.
Defined.

(** An Ide section with nothing in it, where no settings file exists. *)
Lemma IDE_Materialize_claude_settings_entry_witness :
  ∃ content,
    IDE_Materialize nat demo.sh demo.http_get demo.ReadFile JsonText.parse JsonText.print
      (claude_IDE nat demo.ReadFile JsonText.parse JsonText.print)
      (Some {| adcp.ide_commands := None; adcp.ide_permissions := None;
               adcp.ide_mcp := None |}) 0
    = (Ok {| adcp.result_entries := [adcp.file_entry settingsPath content] |}, 0).
Proof.
  eexists.
  apply (proj2 (proj2 (IDE_Materialize_claude_settings_entry nat demo.sh demo.http_get
                         demo.ReadFile JsonText.parse JsonText.print
                         {| adcp.ide_commands := None; adcp.ide_permissions := None;
                            adcp.ide_mcp := None |} 0))).
Defined.

(** ** More on [ConvertToRawURL] *)

Section ConvertToRawURL_more.
Import GoStrings utils.

(** [Cut] splits around the separator it finds. *)
Lemma Cut_Some (s sep before after : string) :
  Cut s sep = Some (before, after) → s = before +:+ sep +:+ after.
Proof.
  assert (∀ t prefix, HasPrefix t prefix = true →
                      t = prefix +:+ drop_bytes (String.length prefix) t) as Hprefix.
  { intros t prefix. revert t. induction prefix as [|p prefix IH]; intros t H; [done|].
    destruct t as [|c t]; [done|]. cbn [HasPrefix] in H.
    apply andb_true_iff in H as [Hc Ht]. apply Ascii.eqb_eq in Hc as ->.
    rewrite append_cons. cbn [String.length drop_bytes]. by rewrite <-(IH t Ht). }
  revert before. induction s as [|c s IH]; intros before H.
  - destruct sep as [|p sep]; [|done]. cbn in H. by injection H as <- <-.
  - cbn [Cut] in H. destruct (HasPrefix (String c s) sep) eqn:Hp.
    + injection H as <- <-. by apply Hprefix.
    + destruct (Cut s sep) as [[b a]|] eqn:Hcut; [|done].
      injection H as <- <-. rewrite append_cons. f_equal. by apply IH.
Qed.

(** A text without a slash, followed by a slash, is cut at that slash. *)
Lemma Cut_slash (s t : string) :
  Contains s "/" = false → Cut (s +:+ "/" +:+ t) "/" = Some (s, t).
Proof.
  unfold Contains. induction s as [|c s IH]; intros H; [done|].
  rewrite append_cons. cbn [Cut] in H |- *. cbn [HasPrefix] in H |- *.
  destruct (Ascii.eqb c "/"); [done|]. cbn [andb] in H |- *.
  destruct (Cut s "/") as [[b a]|] eqn:Hcut; [done|].
  by rewrite IH.
Qed.

Lemma SplitN_nonempty (s sep : string) (n : nat) : SplitN s sep (S n) ≠ [].
Proof. destruct n; cbn [SplitN]; [done|]. by destruct (Cut s sep) as [[??]|]. Qed.

Lemma SplitN_step (s sep : string) (n : nat) :
  SplitN s sep (S (S n))
  = match Cut s sep with
    | Some (before, after) => before :: SplitN after sep (S n)
    | None => [s]
    end.
Proof. done. Qed.

Lemma Join_cons (e : string) (l : list string) (sep : string) :
  l ≠ [] → Join (e :: l) sep = e +:+ sep +:+ Join l sep.
Proof. by destruct l. Qed.

(** Joining what [SplitN] has split gives the text back. *)
Lemma Join_SplitN (s sep : string) (n : nat) : Join (SplitN s sep (S n)) sep = s.
Proof.
  revert s. induction n as [|n IH]; intros s; [done|].
  rewrite SplitN_step. destruct (Cut s sep) as [[before after]|] eqn:Hcut; [|done].
  rewrite Join_cons by apply SplitN_nonempty.
  rewrite IH. symmetry. by apply Cut_Some.
Qed.

Lemma SplitN_slash (s t : string) (n : nat) :
  Contains s "/" = false →
  SplitN (s +:+ "/" +:+ t) "/" (S (S n)) = s :: SplitN t "/" (S n).
Proof. intros H. by rewrite SplitN_step, Cut_slash. Qed.

(** The segment before the first slash of a text that does not start with
    [kind/] is not [kind]. *)
Lemma Cut_not_kind (file kind before after : string) :
  HasPrefix file (kind +:+ "/") = false →
  Cut file "/" = Some (before, after) → String.eqb before kind = false.
Proof.
  intros Hkind Hcut. apply Cut_Some in Hcut as ->.
  destruct (String.eqb_spec before kind) as [->|]; [|done].
  rewrite <-Hkind. clear Hkind.
  induction kind as [|c kind IH]; [done|].
  rewrite !append_cons. cbn [HasPrefix]. by rewrite Ascii.eqb_refl.
Qed.

(** The [owner/repo/file] format.  A path of the conversion branch that
    reads [owner/repo/file] once trimmed, with no slash in [owner] and in
    [repo] and with a [file] that does not start with [blob/] or [tree/],
    gives the raw URL of [file] at the ref of the version: the file path is
    kept whole, however many slashes it has. *)
Theorem ConvertToRawURL_owner_repo_file
    (path owner repo file : string) (version : option GitVersion) :
  Contains path "github.com" = true →
  Contains path "raw.githubusercontent.com" = false →
  trimmed path = owner +:+ "/" +:+ repo +:+ "/" +:+ file →
  Contains owner "/" = false →
  Contains repo "/" = false →
  HasPrefix file "blob/" = false →
  HasPrefix file "tree/" = false →
  ConvertToRawURL path version = Ok (raw_url owner repo (version_ref version) file).
Proof.
  intros Hgh Hraw Htrim Howner Hrepo Hblob Htree.
  rewrite ConvertToRawURL_convert by done. unfold segments. rewrite Htrim.
  rewrite SplitN_slash, SplitN_slash by done. cbv zeta.
  assert (Join (drop 2 (owner :: repo :: SplitN file "/" 3)) "/" = file) as Hjoin
    by apply Join_SplitN.
  rewrite SplitN_step in Hjoin |- *.
  destruct (Cut file "/") as [[before after]|] eqn:Hcut.
  - cbn [nth]. rewrite (Cut_not_kind file "blob" before after) by done.
    rewrite (Cut_not_kind file "tree" before after) by done.
    rewrite andb_false_r.
    pose proof (SplitN_length_pos after "/" 2 ltac:(lia)) as Hlen.
    destruct (SplitN after "/" 2) as [|x l]; [cbn in Hlen; lia|].
    cbn [length Nat.leb]. cbn [nth]. by rewrite Hjoin.
  - cbn [length Nat.leb andb nth]. by rewrite Hjoin.
Qed.

(** The [owner/repo/blob|tree/ref/file] format.  With no slash in [owner],
    [repo] and [ref], the raw URL is that of [file] at [ref]; the version
    of the reference plays no part. *)
Theorem ConvertToRawURL_blob_ref_file
    (path owner repo kind ref file : string) (version : option GitVersion) :
  Contains path "github.com" = true →
  Contains path "raw.githubusercontent.com" = false →
  kind = "blob" ∨ kind = "tree" →
  trimmed path = owner +:+ "/" +:+ repo +:+ "/" +:+ kind +:+ "/" +:+ ref +:+ "/" +:+ file →
  Contains owner "/" = false →
  Contains repo "/" = false →
  Contains ref "/" = false →
  ConvertToRawURL path version = Ok (raw_url owner repo ref file).
Proof.
  intros Hgh Hraw Hkind Htrim Howner Hrepo Href.
  assert (Contains kind "/" = false) as Hslash by (by destruct Hkind as [-> | ->]).
  rewrite ConvertToRawURL_convert by done. unfold segments. rewrite Htrim.
  rewrite !SplitN_slash by done. cbv zeta. cbn [SplitN length Nat.leb Nat.ltb nth].
  by destruct Hkind as [-> | ->].
Qed.

(** When the conversion fails.  [ConvertToRawURL] returns an error exactly
    for a path of the conversion branch that has fewer than three segments,
    or has four of which the third is [blob] or [tree]; the message is then
    "invalid github path format: " followed by the trimmed path.  The
    version has no say in it. *)
Theorem ConvertToRawURL_error_iff (path : string) (version : option GitVersion) (e : string) :
  ConvertToRawURL path version = Err e
  ↔ Contains path "github.com" = true
    ∧ Contains path "raw.githubusercontent.com" = false
    ∧ e = invalid_format (trimmed path)
    ∧ ((length (segments path) < 3)%nat
       ∨ length (segments path) = 4%nat
         ∧ (nth 2 (segments path) "" = "blob" ∨ nth 2 (segments path) "" = "tree")).
Proof.
  destruct (Contains path "github.com") eqn:Hgh; cycle 1.
  { unfold ConvertToRawURL. rewrite Hgh, orb_true_r. naive_solver. }
  destruct (Contains path "raw.githubusercontent.com") eqn:Hraw.
  { unfold ConvertToRawURL. rewrite Hraw. naive_solver. }
  rewrite ConvertToRawURL_convert by done. cbv zeta.
  pose proof (segments_length path) as Hlen.
  set (parts := segments path) in *.
  assert (String.eqb (nth 2 parts "") "blob" || String.eqb (nth 2 parts "") "tree" = true
          ↔ nth 2 parts "" = "blob" ∨ nth 2 parts "" = "tree") as Hkind.
  { rewrite orb_true_iff, !String.eqb_eq. done. }
  destruct (String.eqb (nth 2 parts "") "blob" || String.eqb (nth 2 parts "") "tree").
  - rewrite andb_true_r.
    destruct (4 <=? length parts)%nat eqn:H4.
    + apply Nat.leb_le in H4. destruct (length parts <? 5)%nat eqn:H5.
      * apply Nat.ltb_lt in H5. split.
        -- intros [= <-]. split_and!; try done. right. split; [lia|]. by apply Hkind.
        -- intros (_ & _ & -> & _). done.
      * apply Nat.ltb_ge in H5. split; [done|]. intros (_ & _ & _ & [?|[? _]]); lia.
    + apply Nat.leb_gt in H4. destruct (3 <=? length parts)%nat eqn:H3.
      * apply Nat.leb_le in H3. split; [done|]. intros (_ & _ & _ & [?|[? _]]); lia.
      * apply Nat.leb_gt in H3. split.
        -- intros [= <-]. split_and!; try done. by left.
        -- intros (_ & _ & -> & _). done.
  - rewrite andb_false_r. destruct (3 <=? length parts)%nat eqn:H3.
    + apply Nat.leb_le in H3. split; [done|].
      intros (_ & _ & _ & [?|[_ Hk]]); [lia|]. apply Hkind in Hk. done.
    + apply Nat.leb_gt in H3. split.
      * intros [= <-]. split_and!; try done. by left.
      * intros (_ & _ & -> & _). done.
Qed.

Lemma Contains_raw_url (owner repo ref filePath : string) :
  Contains (raw_url owner repo ref filePath) "raw.githubusercontent.com" = true.
Proof. reflexivity. Qed.

(** Converting twice.  A URL that [ConvertToRawURL] has returned is
    returned unchanged when it is converted again, whatever the version. *)
Theorem ConvertToRawURL_twice (path url : string) (version version' : option GitVersion) :
  ConvertToRawURL path version = Ok url → ConvertToRawURL url version' = Ok url.
Proof.
  intros H.
  assert (Contains url "raw.githubusercontent.com" || negb (Contains url "github.com")
          = true) as Hpass.
  { unfold ConvertToRawURL in H.
    destruct (Contains path "raw.githubusercontent.com" || negb (Contains path "github.com"))
      eqn:Hpath.
    - by injection H as <-.
    - cbv zeta in H.
      repeat match type of H with
             | (if ?b then _ else _) = _ => destruct b
             end; try discriminate H; injection H as <-;
        by rewrite Contains_raw_url. }
  unfold ConvertToRawURL. by rewrite Hpass.
Qed.

End ConvertToRawURL_more.

(** A file three folders deep, at a tag. *)
Lemma ConvertToRawURL_owner_repo_file_witness :
  utils.ConvertToRawURL "https://github.com/org/repo/docs/guide/a.md"
    (Some (utils.GitVersion_Tag "v2"))
  = Ok "https://raw.githubusercontent.com/org/repo/v2/docs/guide/a.md".
Proof.
  apply (ConvertToRawURL_owner_repo_file "https://github.com/org/repo/docs/guide/a.md"
           "org" "repo" "docs/guide/a.md" (Some (utils.GitVersion_Tag "v2")));
    reflexivity.
Defined.

(** A [tree] link, with a version that is not used. *)
Lemma ConvertToRawURL_blob_ref_file_witness :
  utils.ConvertToRawURL "github.com/org/repo/tree/dev/docs/a.md"
    (Some (utils.GitVersion_Commit "abc123"))
  = Ok "https://raw.githubusercontent.com/org/repo/dev/docs/a.md".
Proof.
  apply (ConvertToRawURL_blob_ref_file "github.com/org/repo/tree/dev/docs/a.md"
           "org" "repo" "tree" "dev" "docs/a.md" (Some (utils.GitVersion_Commit "abc123")));
    first [reflexivity | by right].
Defined.

(** A repository link is converted, and the raw URL it gives stays as it
    is. *)
Lemma ConvertToRawURL_twice_witness :
  utils.ConvertToRawURL "https://raw.githubusercontent.com/org/repo/main/a.md"
    (Some (utils.GitVersion_Tag "v1"))
  = Ok "https://raw.githubusercontent.com/org/repo/main/a.md".
Proof.
  apply (ConvertToRawURL_twice "github.com/org/repo/a.md" _ None
           (Some (utils.GitVersion_Tag "v1"))).
  reflexivity.
Defined.

(** ** The further facts at concrete inputs *)

Section written_settings.
Import GoJson JsonText.



End written_settings.

(** A second machine for the prefetch: two commands whose outputs are read
    as prefetch results, the second with a datum of the id [k] that the
    first has too. *)
Module demo_prefetch.
Import adcp.

Definition protojson_Unmarshal (data : string) : result PrefetchResult :=
  if String.eqb data "echo one ran"
  then Ok {| prefetch_data := [{| data_id := "k"; data_data := "first" |};
                               {| data_id := "j"; data_data := "other" |}] |}
  else if String.eqb data "echo two ran"
  then Ok {| prefetch_data := [{| data_id := "k"; data_data := "second" |}] |}
  else Err "proto: syntax error (line 1:1): invalid value".

Definition two_entries : list (option PrefetchEntry) :=
  [Some (PrefetchEntry_Cmd "echo one"); Some (PrefetchEntry_Cmd "echo two")].

Definition two_results : list PrefetchResult :=
  [{| prefetch_data := [{| data_id := "k"; data_data := "first" |};
                        {| data_id := "j"; data_data := "other" |}] |};
   {| prefetch_data := [{| data_id := "k"; data_data := "second" |}] |}].

(** [strings.ToLower] on ASCII text. *)
Fixpoint ToLower (s : string) : string :=
  match s with
  | EmptyString => EmptyString
  | String c s' =>
      let n := nat_of_ascii c in
      String (if ((65 <=? n) && (n <=? 90))%nat then ascii_of_nat (n + 32) else c)
             (ToLower s')
  end.

End demo_prefetch.

Lemma processed_two_entries :
  processed_all nat demo.sh demo_prefetch.protojson_Unmarshal demo.not_set_String
    demo_prefetch.two_entries 0 demo_prefetch.two_results 2.
Proof. repeat (econstructor; [reflexivity|reflexivity|]). constructor. Defined.

(** The id [k] is bound to the datum of the second entry. *)
Lemma Process_last_datum_wins_witness :
  ∃ m, Process nat demo.sh demo_prefetch.protojson_Unmarshal demo.not_set_String
         (Some {| adcp.prefetch_entries := demo_prefetch.two_entries |}) 0
       = (Ok (Some m), 2)
       ∧ ∀ id, m !! id
               = last_with_id id [{| adcp.data_id := "k"; adcp.data_data := "first" |};
                                  {| adcp.data_id := "j"; adcp.data_data := "other" |};
                                  {| adcp.data_id := "k"; adcp.data_data := "second" |}].
Proof.
  exact (Process_last_datum_wins nat demo.sh demo_prefetch.protojson_Unmarshal
           demo.not_set_String demo_prefetch.two_entries 0 2 demo_prefetch.two_results
           processed_two_entries).
Defined.

(** After the two entries, a nil entry and a failing command, each at
    index 2. *)
Lemma Process_first_failure_witness :
  Process nat demo.sh demo_prefetch.protojson_Unmarshal demo.not_set_String
    (Some {| adcp.prefetch_entries := demo_prefetch.two_entries ++ [None] |}) 0
  = (Err "prefetch entry at index 2 is nil", 2)
  ∧ Process nat demo.sh demo_prefetch.protojson_Unmarshal demo.not_set_String
      (Some {| adcp.prefetch_entries :=
                 demo_prefetch.two_entries ++ [Some (adcp.PrefetchEntry_Cmd "exit 1")] |}) 0
    = (Err ("failed to process entry at index 2: command execution failed: "
            +:+ "command execution failed: exit status 1 (output: )"), 3).
Proof.
  destruct (Process_first_failure nat demo.sh demo_prefetch.protojson_Unmarshal
              demo.not_set_String demo_prefetch.two_entries [] 0 2
              demo_prefetch.two_results processed_two_entries) as [Hnil Hfail].
  split; [exact Hnil|].
  apply (Hfail (adcp.PrefetchEntry_Cmd "exit 1")
           "command execution failed: command execution failed: exit status 1 (output: )" 3).
  reflexivity.
Defined.

(** Two files from the prefetched data, and a third id that no datum has. *)
Lemma Recipe_Materialize_prefetched_witness :
  Recipe_Materialize nat demo.sh demo.http_get demo_prefetch.protojson_Unmarshal
    demo.not_set_String demo.fixed_IDE
    (Some {| adcp.recipe_context :=
               Some {| adcp.context_entries :=
                         prefetched_entry <$> [("a.txt", "k"); ("b.txt", "j")] |};
             adcp.recipe_ide := None;
             adcp.recipe_prefetch :=
               Some {| adcp.prefetch_entries := demo_prefetch.two_entries |} |}) 0
  = (Ok {| adcp.result_entries := [adcp.file_entry "a.txt" "second";
                                   adcp.file_entry "b.txt" "other"] |}, 2)
  ∧ Recipe_Materialize nat demo.sh demo.http_get demo_prefetch.protojson_Unmarshal
      demo.not_set_String demo.fixed_IDE
      (Some {| adcp.recipe_context :=
                 Some {| adcp.context_entries :=
                           prefetched_entry
                             <$> ([("a.txt", "k"); ("b.txt", "j")] ++ [("c.txt", "none")]) |};
               adcp.recipe_ide := None;
               adcp.recipe_prefetch :=
                 Some {| adcp.prefetch_entries := demo_prefetch.two_entries |} |}) 0
    = (Err ("failed to materialize context: failed to materialize entry for path "
            +:+ "c.txt" +:+ ": failed to fetch content: prefetch id ["
            +:+ "none" +:+ "] not found"), 2).
Proof.
  destruct (Recipe_Materialize_prefetched nat demo.sh demo.http_get
              demo_prefetch.protojson_Unmarshal demo.not_set_String demo.fixed_IDE
              demo_prefetch.two_entries 0 2 demo_prefetch.two_results
              [("a.txt", "k"); ("b.txt", "j")] processed_two_entries)
    as [Hfound Hmissing].
  { repeat constructor; discriminate. }
  split.
  - apply (Hfound [{| adcp.data_id := "k"; adcp.data_data := "second" |};
                   {| adcp.data_id := "j"; adcp.data_data := "other" |}]).
    repeat constructor.
  - apply (Hmissing [{| adcp.data_id := "k"; adcp.data_data := "second" |};
                     {| adcp.data_id := "j"; adcp.data_data := "other" |}]
             "c.txt" "none" []).
    + repeat constructor.
    + discriminate.
    + reflexivity.
Defined.


(** A prefetch whose command fails, before a context and an IDE section
    that are never reached. *)
Lemma Recipe_Materialize_first_failure_witness :
  Recipe_Materialize nat demo.sh demo.http_get demo.protojson_Unmarshal
    demo.not_set_String demo.fixed_IDE
    (Some {| adcp.recipe_context := adcp.recipe_context demo.full_recipe;
             adcp.recipe_ide := adcp.recipe_ide demo.full_recipe;
             adcp.recipe_prefetch :=
               Some {| adcp.prefetch_entries := [Some (adcp.PrefetchEntry_Cmd "exit 1")] |}
          |}) 0
  = (Err ("failed to process prefetch: failed to process entry at index 0: "
          +:+ "command execution failed: command execution failed: "
          +:+ "exit status 1 (output: )"), 1).
Proof.
  apply (proj1 (Recipe_Materialize_first_failure nat demo.sh demo.http_get
                  demo.protojson_Unmarshal demo.not_set_String demo.fixed_IDE
                  {| adcp.recipe_context := adcp.recipe_context demo.full_recipe;
                     adcp.recipe_ide := adcp.recipe_ide demo.full_recipe;
                     adcp.recipe_prefetch :=
                       Some {| adcp.prefetch_entries :=
                                 [Some (adcp.PrefetchEntry_Cmd "exit 1")] |} |} 0)
           {| adcp.prefetch_entries := [Some (adcp.PrefetchEntry_Cmd "exit 1")] |}
           ("failed to process entry at index 0: "
            +:+ "command execution failed: command execution failed: "
            +:+ "exit status 1 (output: )") 1).
  - reflexivity.
  - reflexivity.
Defined.

(** The cases of the table test of the package: an unknown type, a known
    type in capitals without a recipe, and one with an empty recipe. *)
Lemma executable_Recipe_Materialize_ide_type_witness :
  executable_Recipe_Materialize nat demo.sh demo.http_get demo.ReadFile
    demo.protojson_Unmarshal demo.not_set_String JsonText.parse JsonText.print
    demo_prefetch.ToLower
    (Some {| exec_entry_point := Some {| entry_ide_type := "Unknown-IDE" |};
             exec_recipe := None |}) 0
  = (Err "failed to get IDE: unsupported IDE type: Unknown-IDE", 0)
  ∧ executable_Recipe_Materialize nat demo.sh demo.http_get demo.ReadFile
      demo.protojson_Unmarshal demo.not_set_String JsonText.parse JsonText.print
      demo_prefetch.ToLower
      (Some {| exec_entry_point := Some {| entry_ide_type := "Claude" |};
               exec_recipe := None |}) 0
    = (Err "recipe cannot be nil", 0)
  ∧ executable_Recipe_Materialize nat demo.sh demo.http_get demo.ReadFile
      demo.protojson_Unmarshal demo.not_set_String JsonText.parse JsonText.print
      demo_prefetch.ToLower
      (Some {| exec_entry_point := Some {| entry_ide_type := "cursor-cli" |};
               exec_recipe := Some {| adcp.recipe_context := None; adcp.recipe_ide := None;
                                      adcp.recipe_prefetch := None |} |}) 0
    = (Ok {| adcp.result_entries := [] |}, 0).
Proof.
  split_and!.
  - apply (proj1 (executable_Recipe_Materialize_ide_type nat demo.sh demo.http_get
                    demo.ReadFile demo.protojson_Unmarshal demo.not_set_String
                    JsonText.parse JsonText.print demo_prefetch.ToLower
                    (Some {| exec_entry_point := Some {| entry_ide_type := "Unknown-IDE" |};
                             exec_recipe := None |}) 0)); discriminate.
  - apply (proj2 (executable_Recipe_Materialize_ide_type nat demo.sh demo.http_get
                    demo.ReadFile demo.protojson_Unmarshal demo.not_set_String
                    JsonText.parse JsonText.print demo_prefetch.ToLower
                    (Some {| exec_entry_point := Some {| entry_ide_type := "Claude" |};
                             exec_recipe := None |}) 0)).
    + left. reflexivity.
    + reflexivity.
  - apply (proj2 (executable_Recipe_Materialize_ide_type nat demo.sh demo.http_get
                    demo.ReadFile demo.protojson_Unmarshal demo.not_set_String
                    JsonText.parse JsonText.print demo_prefetch.ToLower
                    (Some {| exec_entry_point := Some {| entry_ide_type := "cursor-cli" |};
                             exec_recipe :=
                               Some {| adcp.recipe_context := None; adcp.recipe_ide := None;
                                       adcp.recipe_prefetch := None |} |}) 0)).
    + right. reflexivity.
    + reflexivity.
Defined.

(** Two Bash permissions with the same text are one permission. *)
Lemma formatPermission_inj_witness :
  adcp.Permission_Bash "git status:*" = adcp.Permission_Bash "git status:*".
Proof.
  apply (proj1 (formatPermission_inj (adcp.Permission_Bash "git status:*")
                  (adcp.Permission_Bash "git status:*"))); reflexivity.
Defined.

(** An Ide section whose one server, [ghost], is nil: the servers file
    gets no entry for it, the settings enable it. *)
Lemma IDE_Materialize_claude_enables_servers_witness :
  ∃ res s,
    IDE_Materialize nat demo.sh demo.http_get demo.ReadFile JsonText.parse JsonText.print
      (claude_IDE nat demo.ReadFile JsonText.parse JsonText.print)
      (Some {| adcp.ide_commands := None; adcp.ide_permissions := None;
               adcp.ide_mcp := Some {| adcp.mcp_servers := {["ghost" := None]} |} |}) 0
    = (Ok res, 0)
    ∧ adcp.file_entry settingsPath (JsonText.print (encode_claudeSettings s))
      ∈ adcp.result_entries res
    ∧ "mcp__ghost" ∈ elems (Allow (Permissions_ s))
    ∧ "ghost" ∈ elems (EnabledMcpjsonServers s).
Proof.
  eexists.
  edestruct (IDE_Materialize_claude_enables_servers nat demo.sh demo.http_get demo.ReadFile
               JsonText.parse JsonText.print
               {| adcp.ide_commands := None; adcp.ide_permissions := None;
                  adcp.ide_mcp := Some {| adcp.mcp_servers := {["ghost" := None]} |} |}
               {| adcp.mcp_servers := {["ghost" := None]} |} "ghost" 0 0)
    as (s & Hentry & Hallow & Henabled).
  - reflexivity.
  - exists None. reflexivity.
  - vm_compute. reflexivity.
  - exists s. split; [vm_compute; reflexivity|].
    split; [exact Hentry|]. split; [exact Hallow|exact Henabled].
Defined.

(** A command without a source before one without a name: the error is
    that of the first. *)
Example materializeCommands_first_of_two :
  materializeCommands nat demo.sh demo.http_get
    (claude_IDE nat demo.ReadFile JsonText.parse JsonText.print)
    (Some {| adcp.commands_entries :=
               [Some {| adcp.command_name := "a"; adcp.command_from := None |};
                Some {| adcp.command_name := ""; adcp.command_from := None |}] |}) 0
  = (Err "command a must have a 'from' source", 0).
Proof. reflexivity. Qed.
